(** * tvm: a Terraform version manager (main.go)

    A shallow embedding of [main.go] and the properties of its
    selection, verification, installation and delegation paths.

    The program talks to the file system, the network and the process
    table.  Those are modelled by an explicit [World] that every operation
    threads, together with an [outcome] that records how a Go function
    ended: by returning, by [log.Fatal], by a nil dereference or by
    replacing the process image.

    The packages the program imports (go-version, crypto/sha256,
    archive/zip, sort) are not part of the repository.  What the program
    uses of them is a parameter of the development ([Env]), and what is
    assumed of them is the documented contract, stated as hypotheses where
    the proofs start.  A concrete instance ([Sample], [Scenario]) serves
    to run the program on explicit inputs.

    The file has the definitions first: the libraries' data and the
    scanner, the program, the explicit inputs; then the proofs. *)

From Stdlib Require Import List String Ascii NArith ZArith Bool Lia.
From Stdlib Require Import Permutation Sorted.
From stdpp Require Import base option list gmap strings.

Local Open Scope string_scope.
Local Open Scope list_scope.

(* ===================================================================== *)
(** ** sort.Slice on short slices

    [sort.Slice] dispatches to insertion sort for slices of at most 12
    elements ([insertionSortLessFunc]):

      for i := a + 1; i < b; i++ {
        for j := i; j > a && less(data[j], data[j-1]); j-- {
          data[j], data[j-1] = data[j-1], data[j]
        }
      }

    [bubble] is the inner loop.  It works on the already sorted prefix
    held in reverse (its head is [data[j-1]]). *)

Fixpoint bubble {A} (less : A → A → bool) (x : A) (rprefix : list A) : list A :=
  match rprefix with
  | [] => [x]
  | y :: r => if less x y then y :: bubble less x r else x :: y :: r
  end.

Definition insertionSort {A} (less : A → A → bool) (data : list A) : list A :=
  rev (fold_left (λ rprefix x, bubble less x rprefix) data []).

(** The requirement [sort.Interface] puts on [Less]: a strict weak
    ordering. *)
Definition strict_weak {A} (less : A → A → bool) : Prop :=
  (∀ a, less a a = false) ∧
  (∀ a b c, less a b = true → less b c = true → less a c = true) ∧
  (∀ a b c, less a b = false → less b c = false → less a c = false).

(** Number of elements of [l] that satisfy [p]. *)
Fixpoint countb {A} (p : A → bool) (l : list A) : nat :=
  match l with
  | [] => 0
  | x :: l => (if p x then 1 else 0) + countb p l
  end.

(* ===================================================================== *)
(** ** Text and paths *)

(** The line feed that ends every message the program prints. *)
Definition nl : string := String "010" EmptyString.

Definition is_slash (c : ascii) : bool := Ascii.eqb c "/".

Fixpoint drop_slashes (p : list ascii) : list ascii :=
  match p with
  | c :: p' => if is_slash c then drop_slashes p' else p
  | [] => []
  end.

Fixpoint upto_slash (p : list ascii) : list ascii :=
  match p with
  | c :: p' => if is_slash c then [] else c :: upto_slash p'
  | [] => []
  end.

(** [path.Base]: the last element of the path, trailing slashes removed;
    "." for the empty path and "/" for a path of slashes only. *)
Definition path_Base (p : string) : string :=
  match p with
  | EmptyString => "."
  | _ =>
      let stripped := drop_slashes (rev (list_ascii_of_string p)) in
      match rev (upto_slash stripped) with
      | [] => "/"
      | e => string_of_list_ascii e
      end
  end.

(** [path.Join] of two elements.  The program only joins a clean directory
    path with a single non-empty element, where [Join] puts one slash
    between them. *)
Definition path_Join (dir elem : string) : string := dir +:+ "/" +:+ elem.

(* ===================================================================== *)
(** ** fmt.Fscanf(r, "%64x  %s", &checksum, &filename)

    The scanner of package fmt ([doScanf] in scan.go), specialised to the
    one format the program uses, over the bytes that are left of the
    response body.  Input is read byte-wise, which is what the scanner
    does on ASCII text; the scanner's overall limit of 2^30 runes is not
    modelled.

    The call returns the number of operands stored and an error; the error
    is nil only when both operands were stored ([Fscanf_two]). *)

Inductive scan_error : Type :=
| io_EOF
| io_ErrUnexpectedEOF
| scanError (msg : string).

(** What one call stores and returns: [n], [err] and the two operands. *)
Record scanned := {
  n : nat;
  err : option scan_error;
  checksum : list ascii;
  filename : string;
}.

(** fmt's [isSpace] on ASCII: tab, line feed, vertical tab, form feed,
    carriage return and space. *)
Definition isSpace (c : ascii) : bool :=
  let k := N_of_ascii c in ((9 <=? k) && (k <=? 13) || (k =? 32))%N.

Definition isNewline (c : ascii) : bool := Ascii.eqb c "010".

(** fmt's [hexDigit]. *)
Definition hexDigit (c : ascii) : option N :=
  let k := N_of_ascii c in
  if ((48 <=? k) && (k <=? 57))%N then Some (k - 48)%N
  else if ((97 <=? k) && (k <=? 102))%N then Some (k - 87)%N
  else if ((65 <=? k) && (k <=? 70))%N then Some (k - 55)%N
  else None.

(** [ss.SkipSpace] with [nlIsSpace = false]: blanks are skipped, a line
    feed is an error, anything else is put back. *)
Fixpoint SkipSpace (s : list ascii) : option scan_error * list ascii :=
  match s with
  | [] => (None, [])
  | c :: s' =>
      if isNewline c then (Some (scanError "unexpected newline"), s')
      else if isSpace c then SkipSpace s'
      else (None, s)
  end.

(** [ss.hexString]: pairs of hex digits, at most [lim] runes of them
    (the verb's width). *)
Fixpoint hexString (lim : nat) (s : list ascii)
  : option scan_error * list ascii * list ascii :=
  match lim, s with
  | 0, _ => (None, [], s)
  | _, [] => (None, [], [])
  | S lim1, c1 :: s1 =>
      match hexDigit c1 with
      | None => (None, [], s)
      | Some v1 =>
          match lim1, s1 with
          | 0, _ => (Some io_ErrUnexpectedEOF, [], s1)
          | _, [] => (Some io_ErrUnexpectedEOF, [], [])
          | S lim2, c2 :: s2 =>
              match hexDigit c2 with
              | None => (Some (scanError "illegal hex digit"), [], s2)
              | Some v2 =>
                  let '(e, buf, rest) := hexString lim2 s2 in
                  (e, ascii_of_N (v1 * 16 + v2) :: buf, rest)
              end
          end
      end
  end.

(** The run of blanks other than line feed that a space in the format
    matches. *)
Fixpoint skip_blanks (s : list ascii) : list ascii :=
  match s with
  | c :: s' => if isSpace c && negb (isNewline c) then skip_blanks s' else s
  | [] => []
  end.

(** [ss.token(true, notSpace)]: the word up to the next space. *)
Fixpoint token (s : list ascii) : list ascii * list ascii :=
  match s with
  | c :: s' =>
      if isSpace c then ([], s)
      else let '(w, rest) := token s' in (c :: w, rest)
  | [] => ([], [])
  end.

Definition scan_fail (k : nat) (e : scan_error) : scanned :=
  {| n := k; err := Some e; checksum := []; filename := "" |}.

(** One call.  The verb [%64x] skips blanks and reads pairs of hex digits,
    64 digits at most; the two spaces of the format match one or more
    blanks of the input, but no line feed; the verb [%s] skips blanks and
    reads a word.  A line feed where a verb expects its operand is an
    error, and so is the end of the input ([io.EOF]).

    The second component is what is left of the body for the next call.
    The body is not an [io.RuneScanner], so the rune the scanner read past
    the file name and put back is lost when the call returns: hence the
    [tail], which drops the line feed that ends a record. *)
Definition Fscanf (body : list ascii) : scanned * list ascii :=
  match SkipSpace body with
  | (Some e, r) => (scan_fail 0 e, r)
  | (None, []) => (scan_fail 0 io_EOF, [])
  | (None, s1) =>
      match hexString 64 s1 with
      | (Some e, _, r) => (scan_fail 0 e, r)
      | (None, [], r) => (scan_fail 0 (scanError "no hex data for %x string"), r)
      | (None, _, []) => (scan_fail 1 io_EOF, [])
      | (None, sum, c :: s2) =>
          if negb (isSpace c) then
            (scan_fail 1 (scanError "expected space in input to match format"), s2)
          else if isNewline c then
            (scan_fail 1 (scanError "newline in input does not match format"), s2)
          else
            match SkipSpace (skip_blanks s2) with
            | (Some e, r) => (scan_fail 1 e, r)
            | (None, []) => (scan_fail 1 io_EOF, [])
            | (None, s3) =>
                let '(w, s4) := token s3 in
                ({| n := 2; err := None; checksum := sum;
                    filename := string_of_list_ascii w |}, tail s4)
            end
      end
  end.

(** A record of the manifest as the release site writes it: the digest in
    lower-case hex, two spaces, the file name, a line feed. *)
Definition hex_char (k : N) : ascii :=
  if (k <? 10)%N then ascii_of_N (48 + k) else ascii_of_N (87 + k).

Definition hex_of_byte (b : ascii) : list ascii :=
  let k := N_of_ascii b in [hex_char (k / 16); hex_char (k mod 16)].

Definition render_record (r : list ascii * string) : list ascii :=
  concat (map hex_of_byte r.1) ++ [" "; " "]%char ++ list_ascii_of_string r.2 ++ ["010"%char].

Definition render_manifest (records : list (list ascii * string)) : list ascii :=
  concat (map render_record records).

(** A file name the release site uses: non-empty, without blanks. *)
Definition plain_name (f : string) : Prop :=
  f ≠ "" ∧ forallb (λ c, negb (isSpace c)) (list_ascii_of_string f) = true.

(* ===================================================================== *)
(** ** Outcomes of a Go function *)

(** How control leaves a function other than by returning. *)
Inductive stop : Type :=
| Fatal                                   (* log.Fatal: os.Exit(1), no deferred call runs *)
| Exit (code : Z)                         (* os.Exit(code) *)
| Panic                                   (* run-time panic *)
| Replaced (bin : string) (argv : list string)  (* syscall.Exec took over the process *)
| OutOfFuel.                              (* never produced by the program, see [scan_fuel_enough] *)

Inductive outcome (A : Type) : Type :=
| Return (a : A)
| Stop (s : stop).
Arguments Return {A} a.
Arguments Stop {A} s.

(** The status the process ends with; none when its image was replaced. *)
Definition exit_status {A} (o : outcome A) : option Z :=
  match o with
  | Return _ => Some 0%Z
  | Stop Fatal => Some 1%Z
  | Stop (Exit c) => Some c
  | Stop Panic => Some 2%Z
  | Stop (Replaced _ _) => None
  | Stop OutOfFuel => None
  end.

(** A Go call that reports failure through its [error] result. *)
Inductive result (A : Type) : Type :=
| Ok (a : A)
| Err.
Arguments Ok {A} a.
Arguments Err {A}.

(** An entry of the file system. *)
Inductive node : Type :=
| Dir
| File (content : list ascii) (mode : N).

(* ===================================================================== *)
(** ** The data of the program *)

(** *** net/url *)
Record url_URL := { URL_String : string; Path : string }.

(** *** type tfVersion struct

    [Version] is never nil in a value the program sorts or selects from:
    [get] drops candidates without one (line 248) and [exec] builds every
    element from a parsed version (line 497).  The three locations are
    pointers and may be nil. *)
Record tfVersion (version_Version : Type) : Type := {
  Version : version_Version;
  URL : option url_URL;
  ChecksumURL : option url_URL;
  ChecksumSignatureURL : option url_URL;
}.

Arguments Version {version_Version} t.
Arguments URL {version_Version} t.
Arguments ChecksumURL {version_Version} t.
Arguments ChecksumSignatureURL {version_Version} t.

(** *** The world

    [fs] maps a path to what is there.  [denied] are the paths at which
    creating an entry fails (permissions, a full disk).  [net] maps a URL
    to the body [http.Get] reads there, and has no entry where the request
    fails.  [catalog] is what scraping the release site yields, in the
    order the workers answer, or nothing when scraping fails.
    [release_pages] are the locations of the pages of the releases, which
    [get] requests one by one after the index of the site, in the order
    in which the requests are sent.  [config] is
    [Terraform.RequiredVersion] of the configuration in the working
    directory, or nothing when there is none to read: the directory or
    its configuration cannot be read, or, where [nil_block] is set, the
    configuration loads and has no [terraform] block, so that
    [tfConfig.Terraform] is nil.  [out] is standard output and [gets] the
    requests sent, both oldest first. *)
Record World (version_Version : Type) : Type := {
  fs : gmap string node;
  denied : string → bool;
  net : gmap string (list ascii);
  catalog : option (list (tfVersion version_Version));
  config : option string;
  out : list string;
  gets : list string;
  nil_block : bool;
  release_pages : list string;
}.

Arguments fs {version_Version} w.
Arguments denied {version_Version} w.
Arguments net {version_Version} w.
Arguments catalog {version_Version} w.
Arguments config {version_Version} w.
Arguments out {version_Version} w.
Arguments gets {version_Version} w.
Arguments nil_block {version_Version} w.
Arguments release_pages {version_Version} w.

(* ===================================================================== *)
(** ** A concrete instance of the libraries

    Versions of up to three decimal segments, constraints made of
    comparisons, a 32-byte checksum in place of SHA-256, a one-entry
    archive format, and insertion sort for [sort.Slice].  The instance
    serves to run the program on explicit inputs. *)

Module Sample.

Definition ver : Type := N * N * N.

Definition Compare (v o : ver) : comparison :=
  match (v.1.1 ?= o.1.1)%N with
  | Eq => match (v.1.2 ?= o.1.2)%N with
          | Eq => (v.2 ?= o.2)%N
          | c => c
          end
  | c => c
  end.

Fixpoint digits (s : list ascii) (acc : N) : option N :=
  match s with
  | [] => Some acc
  | c :: s' =>
      let k := N_of_ascii c in
      if ((48 <=? k) && (k <=? 57))%N then digits s' (acc * 10 + (k - 48))%N else None
  end.

Definition number (s : list ascii) : option N :=
  match s with [] => None | _ => digits s 0%N end.

Fixpoint split (sep : ascii) (s : list ascii) : list (list ascii) :=
  match s with
  | [] => [[]]
  | c :: s' =>
      if Ascii.eqb c sep then [] :: split sep s'
      else match split sep s' with
           | w :: ws => (c :: w) :: ws
           | [] => [[c]]
           end
  end.

Definition version_of (s : list ascii) : result ver :=
  match map number (split "." s) with
  | [Some a] => Ok (a, 0, 0)%N
  | [Some a; Some b] => Ok (a, b, 0%N)
  | [Some a; Some b; Some c] => Ok (a, b, c)
  | _ => Err
  end.

Definition NewVersion (s : string) : result ver :=
  version_of (list_ascii_of_string s).

Fixpoint decimal (fuel : nat) (k : N) : string :=
  match fuel with
  | 0 => ""
  | S fuel =>
      let d := String (ascii_of_N (48 + k mod 10)) "" in
      if (k <? 10)%N then d else decimal fuel (k / 10) +:+ d
  end.

Definition String_ (v : ver) : string :=
  decimal 20 v.1.1 +:+ "." +:+ decimal 20 v.1.2 +:+ "." +:+ decimal 20 v.2.

Inductive operator : Type := GE | GT | LE | LT | EQ.

Definition constraint : Type := operator * ver.

Definition Check (c : constraint) (v : ver) : bool :=
  match c.1, Compare v c.2 with
  | GE, (Gt | Eq) | GT, Gt | LE, (Lt | Eq) | LT, Lt | EQ, Eq => true
  | _, _ => false
  end.

Definition constraint_of (s : list ascii) : result constraint :=
  let with_op (o : operator) (rest : list ascii) :=
    match version_of (skip_blanks rest) with
    | Ok v => Ok (o, v)
    | Err => Err
    end in
  match skip_blanks s with
  | ">" :: "=" :: rest => with_op GE rest
  | "<" :: "=" :: rest => with_op LE rest
  | ">" :: rest => with_op GT rest
  | "<" :: rest => with_op LT rest
  | "=" :: rest => with_op EQ rest
  | rest => with_op EQ rest
  end%char.

Fixpoint all_ok {A} (l : list (result A)) : result (list A) :=
  match l with
  | [] => Ok []
  | Ok a :: l' => match all_ok l' with Ok r => Ok (a :: r) | Err => Err end
  | Err :: _ => Err
  end.

Definition NewConstraint (s : string) : result (list constraint) :=
  all_ok (map constraint_of (split "," (list_ascii_of_string s))).

(** Thirty-two copies of the exclusive or of the bytes. *)
Definition Sum (data : list ascii) : list ascii :=
  repeat (ascii_of_N (fold_left (λ a c, N.lxor a (N_of_ascii c)) data 0%N)) 32.

Fixpoint takeWhile_nl (s : list ascii) : list ascii :=
  match s with
  | c :: s' => if isNewline c then [] else c :: takeWhile_nl s'
  | [] => []
  end.

(** An archive is [PK], the name of its one entry, a line feed and the
    content of the entry. *)
Definition OpenReader (content : list ascii) : result (list (string * list ascii)) :=
  match content with
  | "P" :: "K" :: rest =>
      let name := takeWhile_nl rest in
      Ok [(string_of_list_ascii name, drop (S (length name)) rest)]
  | _ => Err
  end%char.

End Sample.

(* ===================================================================== *)
(** ** The program *)

(** *** What the program imports, and its globals

    The packages the program imports are not in the repository.  What it
    uses of them is gathered here; what is assumed of them is stated where
    the proofs start ([Section Theory]). *)
Class Env : Type := {
  (** go-version: [version.Version], its [Compare] (which returns -1, 0
      or 1), [String] and [NewVersion]; a [version.Constraint], its
      [Check] and [NewConstraint]. *)
  version_Version : Type;
  Compare : version_Version → version_Version → comparison;
  Version_String : version_Version → string;
  version_NewVersion : string → result version_Version;
  version_Constraint : Type;
  Constraint_Check : version_Constraint → version_Version → bool;
  version_NewConstraint : string → result (list version_Constraint);
  (** sort: [sort.Slice] with the comparison of two elements. *)
  sort_Slice : ∀ A, (A → A → bool) → list A → list A;
  (** crypto/sha256: the digest [h.Sum(nil)] of everything written to [h]. *)
  sha256_Sum : list ascii → list ascii;
  (** archive/zip: [zip.OpenReader] on the bytes of the archive, the
      entries with their names and contents, or an error. *)
  zip_OpenReader : list ascii → result (list (string * list ascii));
  (** The globals [init] computes from the home and cache directories. *)
  tfVersionsDirPath : string;
  cacheDirPath : string;
}.

Section Program.

Context {lib : Env}.

Local Abbreviation tfVersion := (tfVersion version_Version).
Local Abbreviation World := (World version_Version).

(** [func (v *Version) LessThan(o *Version) bool { return v.Compare(o) < 0 }] *)
Definition LessThan (v o : version_Version) : bool :=
  match Compare v o with Lt => true | _ => false end.

(** [sortAsc], lines 256-262.  The closure compares the elements at the
    two indices it is handed. *)
Definition sortAsc (tfVersions : list tfVersion) : list tfVersion :=
  sort_Slice _ (λ ti tj, LessThan (Version ti) (Version tj)) tfVersions.

(** [sortDsc], lines 264-270. *)
Definition sortDsc (tfVersions : list tfVersion) : list tfVersion :=
  sort_Slice _ (λ ti tj, LessThan (Version tj) (Version ti)) tfVersions.

(** The version of [x] is at most that of [y]. *)
Definition lebV (x y : tfVersion) : bool := negb (LessThan (Version y) (Version x)).

(** Modelled from the spec: go-version's [Constraints.Check], which is not
    in the repository.  [Constraints] is a slice of constraints and a
    version satisfies it when it satisfies each of them, so that the nil
    slice, the absent constraint, accepts any version. *)
Definition Constraints_Check (cs : list version_Constraint) (v : version_Version) : bool :=
  forallb (λ c, Constraint_Check c v) cs.

Definition baseURL : string := "https://releases.hashicorp.com/terraform/".

Definition set_fs (f : gmap string node → gmap string node) (w : World) : World :=
  {| fs := f (fs w); denied := denied w; net := net w; catalog := catalog w;
     config := config w; out := out w; gets := gets w;
     nil_block := nil_block w; release_pages := release_pages w |}.

Definition add_out (s : string) (w : World) : World :=
  {| fs := fs w; denied := denied w; net := net w; catalog := catalog w;
     config := config w; out := out w ++ [s]; gets := gets w;
     nil_block := nil_block w; release_pages := release_pages w |}.

Definition add_get (u : string) (w : World) : World :=
  {| fs := fs w; denied := denied w; net := net w; catalog := catalog w;
     config := config w; out := out w; gets := gets w ++ [u];
     nil_block := nil_block w; release_pages := release_pages w |}.

(** The world once [get] has sent its requests: one for the index of the
    site (line 146), then one for the page of every release (lines
    178-184). *)
Definition scrape_gets (w : World) : World :=
  {| fs := fs w; denied := denied w; net := net w; catalog := catalog w;
     config := config w; out := out w;
     gets := gets w ++ baseURL :: release_pages w;
     nil_block := nil_block w; release_pages := release_pages w |}.

(** *** Computations *)

Definition M (A : Type) : Type := World → outcome A * World.

#[global] Instance M_ret : MRet M := λ A a w, (Return a, w).

#[global] Instance M_bind : MBind M := λ A B k m w,
  match m w with
  | (Return a, w') => k a w'
  | (Stop s, w') => (Stop s, w')
  end.

Definition halt {A} (s : stop) : M A := λ w, (Stop s, w).

(** [log.Fatal(err)]. *)
Definition log_Fatal {A} : M A := halt Fatal.

(** [fmt.Printf] and [fmt.Println] of the finished text. *)
Definition Printf (s : string) : M unit := λ w, (Return tt, add_out s w).

(** [if err != nil { log.Fatal(err) }] after a call. *)
Definition orFatal {A} (m : M (result A)) : M A :=
  r ← m; match r with Ok a => mret a | Err => log_Fatal end.

(** [defer d] at the head of the rest [m] of a function: [d] runs when the
    function returns, and does not when the process exits inside [m]. *)
Definition defer {A} (d : M unit) (m : M A) : M A := λ w,
  match m w with
  | (Return a, w') => (Return a, (d w').2)
  | (Stop s, w') => (Stop s, w')
  end.

(** *** os *)

(** [_, err := os.Stat(p); os.IsNotExist(err)]. *)
Definition os_IsNotExist (p : string) : M bool := λ w,
  (Return (bool_decide (fs w !! p = None)), w).

Definition os_Mkdir (p : string) : M (result unit) := λ w,
  match fs w !! p with
  | Some _ => (Return Err, w)
  | None => if denied w p then (Return Err, w)
            else (Return (Ok tt), set_fs <[p := Dir]> w)
  end.

(** [os.Create]: the file is created with mode 0666 (438), or truncated. *)
Definition os_Create (p : string) : M (result unit) := λ w,
  match fs w !! p with
  | Some Dir => (Return Err, w)
  | Some (File _ m) => (Return (Ok tt), set_fs <[p := File [] m]> w)
  | None => if denied w p then (Return Err, w)
            else (Return (Ok tt), set_fs <[p := File [] 438%N]> w)
  end.

(** [io.Copy] into the file that was created at [p]. *)
Definition write_file (p : string) (data : list ascii) : M unit := λ w,
  match fs w !! p with
  | Some (File c m) => (Return tt, set_fs <[p := File (c ++ data) m]> w)
  | _ => (Return tt, w)
  end.

Definition File_Chmod (p : string) (m : N) : M (result unit) := λ w,
  match fs w !! p with
  | Some (File c _) => (Return (Ok tt), set_fs <[p := File c m]> w)
  | _ => (Return Err, w)
  end.

Definition os_Remove (p : string) : M (result unit) := λ w,
  match fs w !! p with
  | Some _ => (Return (Ok tt), set_fs (delete p) w)
  | None => (Return Err, w)
  end.

Definition read_file (p : string) : M (result (list ascii)) := λ w,
  match fs w !! p with
  | Some (File c _) => (Return (Ok c), w)
  | _ => (Return Err, w)
  end.

(** The name under [dir] of the entry at path [p], if [p] is directly
    under [dir]. *)
Fixpoint strip_prefix (pre s : string) : option string :=
  match pre, s with
  | EmptyString, _ => Some s
  | String a pre', String b s' => if Ascii.eqb a b then strip_prefix pre' s' else None
  | String _ _, EmptyString => None
  end.

Definition entry_name (dir p : string) : option string :=
  match strip_prefix (dir +:+ "/") p with
  | Some name =>
      if String.eqb name "" then None
      else if existsb is_slash (list_ascii_of_string name) then None
      else Some name
  | None => None
  end.

(** [os.Open(dir)] followed by [Readdir(-1)]: the names of the entries of
    the directory, in directory order. *)
Definition os_Readdir (dir : string) : M (result (list string)) := λ w,
  match fs w !! dir with
  | Some Dir => (Return (Ok (omap (λ e, entry_name dir e.1) (map_to_list (fs w)))), w)
  | _ => (Return Err, w)
  end.

(** [syscall.Exec]: returns only when it fails, as it does on a file
    without an execute bit (0111 is 73). *)
Definition syscall_Exec (bin : string) (argv : list string) : M (result unit) := λ w,
  match fs w !! bin with
  | Some (File _ m) =>
      if (N.land m 73 =? 0)%N then (Return Err, w)
      else (Stop (Replaced bin argv), w)
  | _ => (Return Err, w)
  end.

(** *** net/http *)

Definition http_Get (u : string) : M (result (list ascii)) := λ w,
  match net w !! u with
  | Some body => (Return (Ok body), add_get u w)
  | None => (Return Err, add_get u w)
  end.

(** *** flag *)

(** The name of a flag up to its first [=] (which cannot come first). *)
Fixpoint flag_name (name : string) : string :=
  match name with
  | String c rest => if Ascii.eqb c "=" then "" else String c (flag_name rest)
  | EmptyString => ""
  end.

(** [FlagSet.Parse] for a flag set created with [flag.ExitOnError] on
    which no flag is defined: an argument that looks like a flag ends the
    process, with status 0 when it asks for help and 2 otherwise; [--]
    and anything else end the parsing without error.  The result is the
    text of the error returned, if any. *)
Definition flag_Parse (arguments : list string) : M (option string) :=
  match arguments with
  | String "-" (String c rest) :: _ =>
      if Ascii.eqb c "-" && String.eqb rest "" then mret None
      else
        let name := if Ascii.eqb c "-" then rest else String c rest in
        match name with
        | EmptyString => halt (Exit 2)
        | String d name' =>
            if Ascii.eqb d "-" || Ascii.eqb d "=" then halt (Exit 2)
            else
              let name := String d (flag_name name') in
              if String.eqb name "help" || String.eqb name "h"
              then halt (Exit 0) else halt (Exit 2)
        end
  | _ => mret None
  end.

(** *** main.go *)

(** [get], lines 145-254.  The pages and the workers are not modelled:
    the candidates are those the world's catalog holds, every one with a
    version and a download location, and the requests of the scrape are
    those the world names: the index of the site, then the pages of the
    releases.  A scrape that fails ends the process in [log.Fatal] (lines
    148-150 and 182-184) after the requests it has sent. *)
Definition get : M (list tfVersion) := λ w,
  match catalog w with
  | Some tfVersions => (Return tfVersions, scrape_gets w)
  | None => (Stop Fatal, scrape_gets w)
  end.

(** [list], lines 272-278 (named [list_] here, [list] being the type of
    lists). *)
Fixpoint list_loop (tfVersions : list tfVersion) : M unit :=
  match tfVersions with
  | [] => mret tt
  | tfVersion :: rest =>
      Printf (Version_String (Version tfVersion) +:+ nl);; list_loop rest
  end.

Definition list_ : M unit :=
  tfVersions ← get;
  list_loop (sortAsc tfVersions).

(** [getConstraints], lines 280-304.  [os.Getwd] and [config.LoadDir] are
    the world's [config] and [nil_block].  When they fail the process
    ends in [log.Fatal]; when the configuration loads without a
    [terraform] block, [tfConfig.Terraform] is nil and its dereference at
    line 293 panics. *)
Definition getConstraints : M (list version_Constraint) := λ w,
  match config w with
  | None => if nil_block w then (Stop Panic, w) else (Stop Fatal, w)
  | Some RequiredVersion =>
      if String.eqb RequiredVersion "" then (Return [], w)
      else match version_NewConstraint RequiredVersion with
           | Ok constraints => (Return constraints, w)
           | Err => (Stop Fatal, w)
           end
  end.

(** The loop over the manifest, lines 375-404.  [true] is its [break],
    [false] the [return] out of [install].  Every round that goes on
    shortens the body, so the fuel [install_version] passes is never
    used up ([scan_fuel_enough]). *)
Fixpoint scan_manifest (fuel : nat) (name : string) (sum body : list ascii) : M bool :=
  match fuel with
  | 0 => halt OutOfFuel
  | S fuel =>
      let '(r, body') := Fscanf body in
      match err r with
      | Some io_EOF => Printf ("No checksum found" +:+ nl);; mret true
      | Some _ => log_Fatal
      | None =>
          if Nat.eqb (n r) 2 then
            if String.eqb (filename r) name then
              if negb (bool_decide (sum = checksum r)) then
                Printf ("Checksum verification failed" +:+ nl);; mret false
              else mret true
            else scan_manifest fuel name sum body'
          else
            Printf ("Bad format" +:+ nl);; scan_manifest fuel name sum body'
      end
  end.

(** The body of the loop over [archive.File], lines 420-458. *)
Definition extract_entry (tfVersionDirPath : string) (file : string * list ascii) : M unit :=
  if String.eqb file.1 "terraform" then
    let dst := path_Join tfVersionDirPath (path_Base file.1) in
    orFatal (os_Create dst);;
    write_file dst file.2;;
    orFatal (File_Chmod dst 493)
  else mret tt.

Fixpoint extract (tfVersionDirPath : string) (files : list (string * list ascii)) : M unit :=
  match files with
  | [] => mret tt
  | file :: rest => extract_entry tfVersionDirPath file;; extract tfVersionDirPath rest
  end.

(** Lines 408-460: open the archive, extract, report. *)
Definition unpack (tfVersion : tfVersion) (tfVersionDirPath archivePath : string) : M unit :=
  content ← orFatal (read_file archivePath);
  archive ← orFatal (mret (zip_OpenReader content));
  extract tfVersionDirPath archive;;
  Printf ("Successfully installed Terraform version "
          +:+ Version_String (Version tfVersion) +:+ nl).

(** Lines 360-406: the checksum of the downloaded archive. *)
Definition verify (tfVersion : tfVersion) (name : string) (sum : list ascii) : M bool :=
  match ChecksumURL tfVersion with
  | None => Printf ("No checksum found" +:+ nl);; mret true
  | Some checksumURL =>
      manifest ← orFatal (http_Get (URL_String checksumURL));
      scan_manifest (S (length manifest)) name sum manifest
  end.

(** The deferred removal of the downloaded archive, lines 330-338. *)
Definition remove_archive (archivePath : string) : M unit :=
  r ← os_Remove archivePath;
  match r with
  | Ok _ => mret tt
  | Err => Printf ("Error removing file" +:+ nl)
  end.

(** Lines 313-462: what [install] does with the candidate it selected. *)
Definition install_version (tfVersion : tfVersion) : M unit :=
  let tfVersionDirPath := path_Join tfVersionsDirPath (Version_String (Version tfVersion)) in
  missing ← os_IsNotExist tfVersionDirPath;
  (if (missing : bool) then orFatal (os_Mkdir tfVersionDirPath) else mret tt);;
  match URL tfVersion with
  | None => halt Panic
  | Some url =>
      let archivePath := path_Join cacheDirPath (path_Base (Path url)) in
      orFatal (os_Create archivePath);;
      defer (remove_archive archivePath)
        (body ← orFatal (http_Get (URL_String url));
         write_file archivePath body;;
         proceed ← verify tfVersion (path_Base (Path url)) (sha256_Sum body);
         if (proceed : bool) then unpack tfVersion tfVersionDirPath archivePath else mret tt)
  end.

(** The loop of [install], lines 311-466. *)
Fixpoint install_loop (constraints : list version_Constraint) (tfVersions : list tfVersion) : M unit :=
  match tfVersions with
  | [] => Printf ("None of the available Terraform versions matched the constraints" +:+ nl)
  | tfVersion :: rest =>
      if Constraints_Check constraints (Version tfVersion)
      then install_version tfVersion
      else install_loop constraints rest
  end.

(** [install], lines 306-467. *)
Definition install : M unit :=
  tfVersions ← get;
  let tfVersions := sortDsc tfVersions in
  constraints ← getConstraints;
  install_loop constraints tfVersions.

(** The first loop of [exec], lines 490-500. *)
Fixpoint parse_entries (names : list string) : M (list tfVersion) :=
  match names with
  | [] => mret []
  | name :: rest =>
      match version_NewVersion name with
      | Err => log_Fatal
      | Ok version =>
          tfVersions ← parse_entries rest;
          mret ({| Version := version; URL := None; ChecksumURL := None;
                   ChecksumSignatureURL := None |} :: tfVersions)
      end
  end.

(** The second loop of [exec], lines 506-524; it returns at its [break]
    and when the slice is exhausted. *)
Fixpoint exec_loop (args : list string) (constraints : list version_Constraint)
    (tfVersions : list tfVersion) : M unit :=
  match tfVersions with
  | [] => mret tt
  | tfVersion :: rest =>
      if Constraints_Check constraints (Version tfVersion) then
        let tfVersionBinPath :=
          path_Join (path_Join tfVersionsDirPath (Version_String (Version tfVersion)))
                    "terraform" in
        missing ← os_IsNotExist tfVersionBinPath;
        if (missing : bool) then
          Printf ("Found Terraform version " +:+ Version_String (Version tfVersion)
                  +:+ " but Terraform binary is missing" +:+ nl)
        else
          orFatal (syscall_Exec tfVersionBinPath ("terraform" :: args));;
          exec_loop args constraints rest
      else exec_loop args constraints rest
  end.

(** [exec], lines 469-527.  [sortDsc] sorts the slice in place, and the
    loop that follows reads the sorted slice. *)
Definition exec (args : list string) : M unit :=
  names ← orFatal (os_Readdir tfVersionsDirPath);
  tfVersions ← parse_entries names;
  let tfVersions := sortDsc tfVersions in
  constraints ← getConstraints;
  exec_loop args constraints tfVersions;;
  Printf ("None of the installed Terraform versions matched the constraints" +:+ nl).

(** [if err := cmd.Parse(args); err != nil { fmt.Println(err); os.Exit(1) }]
    of [main]. *)
Definition parsed (arguments : list string) : M unit :=
  err ← flag_Parse arguments;
  match err with
  | None => mret tt
  | Some e => Printf (e +:+ nl);; halt (Exit 1)
  end.

(** [main], lines 91-123, on [os.Args]. *)
Definition main (Args : list string) : M unit :=
  match Args with
  | [] => halt Panic
  | arg0 :: args =>
      if String.eqb (path_Base arg0) "terraform" then exec args
      else if Nat.leb 2 (length Args) then
        match args with
        | [] => halt Panic
        | arg1 :: args2 =>
            if String.eqb arg1 "list" then parsed args2;; list_
            else if String.eqb arg1 "install" then parsed args2;; install
            else if String.eqb arg1 "exec" then parsed args2;; exec args2
            else mret tt
        end
      else Printf ("Too few arguments" +:+ nl);; halt (Exit 1)
  end.

(** *** The selection, in the spec's words

    [select(candidates, constraint)]: scanning the candidates in
    descending version order, the first one whose version satisfies the
    constraint; nothing when there is none. *)
Definition select (constraints : list version_Constraint) (candidates : list tfVersion)
  : option tfVersion :=
  List.find (λ c, Constraints_Check constraints (Version c)) (sortDsc candidates).

(** The file system once the directory [dir] is there. *)
Definition with_dir (f : gmap string node) (dir : string) : gmap string node :=
  match f !! dir with
  | None => <[dir := Dir]> f
  | Some _ => f
  end.

(** A file can be created or truncated at [p]. *)
Definition creatable (f : gmap string node) (deny : string → bool) (p : string) : Prop :=
  f !! p ≠ Some Dir ∧ (f !! p = None → deny p = false).

(** The mode [os.Create] leaves on the file at [p]. *)
Definition created_mode (f : gmap string node) (p : string) : N :=
  match f !! p with
  | Some (File _ m) => m
  | _ => 438%N
  end.

(** The content of the last entry of the archive that is named
    [terraform]: what the loop over the entries leaves in the binary. *)
Fixpoint last_terraform (files : list (string * list ascii)) : option (list ascii) :=
  match files with
  | [] => None
  | file :: rest =>
      match last_terraform rest with
      | Some c => Some c
      | None => if String.eqb file.1 "terraform" then Some file.2 else None
      end
  end.

(** A record of the manifest is well formed: a digest of 32 bytes and a
    plain file name. *)
Definition well_formed (r : list ascii * string) : Prop :=
  length r.1 = 32 ∧ plain_name r.2.

(** The manifest of the candidate does not reject the archive: there is
    no manifest, or it is made of well-formed records and its first record
    for the archive, if any, carries the digest of the archive. *)
Definition accepted (tfVersion : tfVersion) (w : World) (name : string) (sum : list ascii) : Prop :=
  match ChecksumURL tfVersion with
  | None => True
  | Some checksumURL =>
      ∃ records,
        net w !! URL_String checksumURL = Some (render_manifest records) ∧
        Forall well_formed records ∧
        ∀ r, List.find (λ r, String.eqb r.2 name) records = Some r → r.1 = sum
  end.

(** The names [Readdir] lists under the install root. *)
Definition entries (w : World) : list string :=
  omap (λ e, entry_name tfVersionsDirPath e.1) (map_to_list (fs w)).

(** What the first loop of [exec] builds when every name parses. *)
Fixpoint installed (names : list string) : result (list tfVersion) :=
  match names with
  | [] => Ok []
  | name :: rest =>
      match version_NewVersion name, installed rest with
      | Ok version, Ok tfVersions =>
          Ok ({| Version := version; URL := None; ChecksumURL := None;
                 ChecksumSignatureURL := None |} :: tfVersions)
      | _, _ => Err
      end
  end.

(** Where [exec] looks for the binary of a version. *)
Definition binary_of (tfVersion : tfVersion) : string :=
  path_Join (path_Join tfVersionsDirPath (Version_String (Version tfVersion))) "terraform".

(** What was printed between two worlds of one run. *)
Definition printed (w w' : World) : list string := drop (length (out w)) (out w').

(** Every line the computation prints satisfies [P]. *)
Definition emits {A} (P : string → Prop) (m : M A) : Prop :=
  ∀ w, ∃ d, out (m w).2 = out w ++ d ∧ Forall P d.

End Program.

(* ===================================================================== *)
(** ** The start of the process and the pages of the release site *)

(** [strings.HasSuffix]:
    [len(s) >= len(suffix) && s[len(s)-len(suffix):] == suffix]. *)
Definition strings_HasSuffix (s suffix : string) : bool :=
  Nat.leb (String.length suffix) (String.length s) &&
  String.eqb
    (substring (String.length s - String.length suffix) (String.length suffix) s) suffix.

(** An [a] element that the selector [body ul li a] finds on a page, with
    the attributes the program asks for; [s.Attr] reports an attribute
    that is not there. *)
Record anchor : Type := {
  href : option string;
  data_os : option string;
  data_arch : option string;
  data_version : option string;
}.

(** The [tfVersion] a worker of [get] fills in while it visits the anchors
    of the page of one release.  All four fields are nil at first (line
    186), [Version] included. *)
Record scraped (version_Version : Type) : Type := {
  s_Version : option version_Version;
  s_URL : option url_URL;
  s_ChecksumURL : option url_URL;
  s_ChecksumSignatureURL : option url_URL;
}.

Arguments s_Version {version_Version} s.
Arguments s_URL {version_Version} s.
Arguments s_ChecksumURL {version_Version} s.
Arguments s_ChecksumSignatureURL {version_Version} s.

(** What [get] uses beside the libraries of [Env]: [url.Parse], and the
    platform the program is built for. *)
Class Site : Type := {
  url_Parse : string → result url_URL;
  runtime_GOOS : string;
  runtime_GOARCH : string;
}.

Section Startup.

Context {lib : Env}.

Local Abbreviation tfVersion := (tfVersion version_Version).
Local Abbreviation World := (World version_Version).
Local Abbreviation scraped := (scraped version_Version).

(** However the computation ends, the world it leaves is related by [R]
    to the world it started in, and when it does not return it stopped in
    one of the ways [St]. *)
Definition within {A} (R : World → World → Prop) (St : stop → Prop) (m : M A) : Prop :=
  ∀ w, R w (m w).2 ∧ ∀ s, (m w).1 = Stop s → St s.

(** [if _, err := os.Stat(p); os.IsNotExist(err) { err = os.Mkdir(p, 0755); ... }],
    which [init] does three times. *)
Definition ensure_dir (p : string) : M unit :=
  missing ← os_IsNotExist p;
  if (missing : bool) then orFatal (os_Mkdir p) else mret tt.

(** [init], lines 39-89, on the results of [os.UserHomeDir] and
    [os.UserCacheDir].  It returns the three globals it assigns:
    [dataDirPath], [tfVersionsDirPath] and [cacheDirPath].  The parse of
    the constant base URL cannot fail.  [path.Join] is taken on clean
    directory paths, as everywhere in this file. *)
Definition init (os_UserHomeDir os_UserCacheDir : result string)
  : M (string * string * string) :=
  userHomeDirPath ← orFatal (mret os_UserHomeDir);
  let dataDirPath := path_Join userHomeDirPath ".local/share/tvm" in
  ensure_dir dataDirPath;;
  let tfVersionsDirPath := path_Join dataDirPath "versions" in
  ensure_dir tfVersionsDirPath;;
  userCacheDirPath ← orFatal (mret os_UserCacheDir);
  let cacheDirPath := path_Join userCacheDirPath "tvm" in
  ensure_dir cacheDirPath;;
  mret (dataDirPath, tfVersionsDirPath, cacheDirPath).

(** The file system differs from [f] by directories added where [f] had
    nothing. *)
Definition adds_dirs (f f' : gmap string node) : Prop :=
  ∀ p, f' !! p = f !! p ∨ (f !! p = None ∧ f' !! p = Some Dir).

Section Scraping.

Context {site : Site}.

(** The closure a worker runs on every anchor of its page, lines 188-239:
    every [return] leaves the struct as it is. *)
Definition visit (tfVersion : scraped) (s : anchor) : scraped :=
  match href s with
  | None => tfVersion
  | Some _url =>
      match url_Parse _url with
      | Err => tfVersion
      | Ok url =>
          if strings_HasSuffix _url "_SHA256SUMS" then
            {| s_Version := s_Version tfVersion; s_URL := s_URL tfVersion;
               s_ChecksumURL := Some url;
               s_ChecksumSignatureURL := s_ChecksumSignatureURL tfVersion |}
          else if strings_HasSuffix _url "_SHA256SUMS.sig" then
            {| s_Version := s_Version tfVersion; s_URL := s_URL tfVersion;
               s_ChecksumURL := s_ChecksumURL tfVersion;
               s_ChecksumSignatureURL := Some url |}
          else
            match data_os s with
            | None => tfVersion
            | Some os =>
                if negb (String.eqb os runtime_GOOS) then tfVersion
                else
                  match data_arch s with
                  | None => tfVersion
                  | Some arch =>
                      if negb (String.eqb arch runtime_GOARCH) then tfVersion
                      else
                        match data_version s with
                        | None => tfVersion
                        | Some _version =>
                            match version_NewVersion _version with
                            | Err => tfVersion
                            | Ok version =>
                                {| s_Version := Some version; s_URL := Some url;
                                   s_ChecksumURL := s_ChecksumURL tfVersion;
                                   s_ChecksumSignatureURL :=
                                     s_ChecksumSignatureURL tfVersion |}
                            end
                        end
                  end
            end
      end
  end.

(** The anchor [s] is the link to the archive of [version] for the
    platform, at [url]: it has the three data attributes, those of the
    platform among them, its version parses, and its link parses and is
    neither that of a manifest nor that of a signature. *)
Definition archive_link (s : anchor) (version : version_Version) (url : url_URL) : Prop :=
  ∃ _url _version,
    href s = Some _url ∧ url_Parse _url = Ok url ∧
    strings_HasSuffix _url "_SHA256SUMS" = false ∧
    strings_HasSuffix _url "_SHA256SUMS.sig" = false ∧
    data_os s = Some runtime_GOOS ∧ data_arch s = Some runtime_GOARCH ∧
    data_version s = Some _version ∧ version_NewVersion _version = Ok version.

(** What the worker of a page sends on the channel, lines 186-241, given
    the anchors of the page in document order.  A page that cannot be
    fetched ends the process in [log.Fatal] (lines 180-184); the worker
    is modelled on a page that was fetched. *)
Definition worker (page : list anchor) : scraped :=
  fold_left visit page
    {| s_Version := None; s_URL := None; s_ChecksumURL := None;
       s_ChecksumSignatureURL := None |}.

(** The loop that receives from the channel, lines 245-251: a struct
    whose [Version] is nil is dropped. *)
Definition collect (results : list scraped) : list tfVersion :=
  omap (λ r, match s_Version r with
             | Some version =>
                 Some {| Version := version; URL := s_URL r;
                         ChecksumURL := s_ChecksumURL r;
                         ChecksumSignatureURL := s_ChecksumSignatureURL r |}
             | None => None
             end) results.

(** The candidates [get] returns for the pages of the releases, taken in
    the order in which their workers answer.  Which pages there are is
    decided by the index page (lines 154-172), which is not modelled. *)
Definition candidates (pages : list (list anchor)) : list tfVersion :=
  collect (map worker pages).

End Scraping.

End Startup.

(* ===================================================================== *)
(** ** Explicit inputs

    The concrete instance of the libraries as an environment, and the
    worlds the program is run in further down. *)

Module Scenario.

Definition versions : string := "/home/u/.local/share/tvm/versions".
Definition cache : string := "/home/u/.cache/tvm".

Definition env : Env :=
  {| version_Version := Sample.ver;
     Compare := Sample.Compare;
     Version_String := Sample.String_;
     version_NewVersion := Sample.NewVersion;
     version_Constraint := Sample.constraint;
     Constraint_Check := Sample.Check;
     version_NewConstraint := Sample.NewConstraint;
     sort_Slice := @insertionSort;
     sha256_Sum := Sample.Sum;
     zip_OpenReader := Sample.OpenReader;
     tfVersionsDirPath := versions;
     cacheDirPath := cache |}.

#[local] Existing Instance env.

Local Abbreviation tfVersion := (tfVersion Sample.ver).
Local Abbreviation World := (World Sample.ver).

(** The release of a version: its archive and its manifest. *)
Definition archive_name (v : string) : string := "terraform_" +:+ v +:+ "_linux_amd64.zip".

Definition archive_url (v : string) : url_URL :=
  {| URL_String := baseURL +:+ v +:+ "/" +:+ archive_name v;
     Path := "/terraform/" +:+ v +:+ "/" +:+ archive_name v |}.

Definition manifest_url (v : string) : url_URL :=
  {| URL_String := baseURL +:+ v +:+ "/terraform_" +:+ v +:+ "_SHA256SUMS";
     Path := "/terraform/" +:+ v +:+ "/terraform_" +:+ v +:+ "_SHA256SUMS" |}.

Definition archive (v : string) : list ascii :=
  list_ascii_of_string ("PKterraform" +:+ nl +:+ "binary " +:+ v).

Definition candidate (v : Sample.ver) (checksums : bool) : tfVersion :=
  {| Version := v;
     URL := Some (archive_url (Sample.String_ v));
     ChecksumURL := if checksums then Some (manifest_url (Sample.String_ v)) else None;
     ChecksumSignatureURL := None |}.

(** The manifest of a release: a record for another platform, then the
    record of the archive with the digest [sum]. *)
Definition records (v : string) (sum : list ascii) : list (list ascii * string) :=
  [(repeat "001"%char 32, "terraform_" +:+ v +:+ "_darwin_amd64.zip");
   (sum, archive_name v)].

Definition world (f : gmap string node) (n : gmap string (list ascii))
    (c : list (tfVersion)) (rv : string) : World :=
  {| fs := f; denied := λ _, false; net := n; catalog := Some c; config := Some rv;
     out := []; gets := []; nil_block := false;
     release_pages := map (λ t, baseURL +:+ Sample.String_ (Version t) +:+ "/") c |}.

Definition empty_root : gmap string node := {[ versions := Dir; cache := Dir ]}.

Definition v0_12_0 : Sample.ver := (0, 12, 0)%N.
Definition v0_13_0 : Sample.ver := (0, 13, 0)%N.
Definition v1_0_0 : Sample.ver := (1, 0, 0)%N.

(** Scenario A of the spec: three versions published, [>= 0.13.0, < 1.0.0]
    required. *)
Definition scenario_A : World :=
  world empty_root
    {[ URL_String (archive_url "0.13.0") := archive "0.13.0";
       URL_String (manifest_url "0.13.0")
         := render_manifest (records "0.13.0" (Sample.Sum (archive "0.13.0"))) ]}
    [candidate v0_12_0 true; candidate v1_0_0 true; candidate v0_13_0 true]
    ">= 0.13.0, < 1.0.0".


Definition catalog_A : list (tfVersion) :=
  [candidate v0_12_0 true; candidate v1_0_0 true; candidate v0_13_0 true].

Definition constraint_A : list Sample.constraint :=
  [(Sample.GE, v0_13_0); (Sample.LT, v1_0_0)].

(** The paths of the installation of a version. *)
Definition dir_of (v : Sample.ver) : string := path_Join versions (Sample.String_ v).
Definition bin_of (v : Sample.ver) : string := path_Join (dir_of v) "terraform".
Definition archive_of (v : Sample.ver) : string :=
  path_Join cache (archive_name (Sample.String_ v)).

(** One candidate, 1.0.0, whose manifest carries the digest [sum] for the
    archive; nothing is installed yet. *)
Definition release (sum : list ascii) : World :=
  world empty_root
    {[ URL_String (archive_url "1.0.0") := archive "1.0.0";
       URL_String (manifest_url "1.0.0") := render_manifest (records "1.0.0" sum) ]}
    [candidate v1_0_0 true] "".

Definition wrong_sum : list ascii := repeat "000"%char 32.

(** The same release without the record of the archive in its manifest. *)
Definition release_other_platform : World :=
  world empty_root
    {[ URL_String (archive_url "1.0.0") := archive "1.0.0";
       URL_String (manifest_url "1.0.0")
         := render_manifest [(repeat "001"%char 32, "terraform_1.0.0_darwin_amd64.zip")] ]}
    [candidate v1_0_0 true] "".

(** The release with 1.0.0 already installed. *)
Definition reinstall : World :=
  world {[ versions := Dir; cache := Dir; dir_of v1_0_0 := Dir;
           bin_of v1_0_0 := File (list_ascii_of_string "old binary") 493%N ]}
    {[ URL_String (archive_url "1.0.0") := archive "1.0.0";
       URL_String (manifest_url "1.0.0")
         := render_manifest (records "1.0.0" (Sample.Sum (archive "1.0.0"))) ]}
    [candidate v1_0_0 true] "".

(** An install root with an entry that is not a version. *)
Definition stray_entry : World :=
  world {[ versions := Dir; cache := Dir; dir_of v1_0_0 := Dir;
           path_Join versions "not-a-version" := Dir ]}
    ∅ [] "".

(** Two candidates of one version at two locations. *)
Definition mirror_a : tfVersion := candidate v1_0_0 true.
Definition mirror_b : tfVersion :=
  {| Version := v1_0_0; URL := Some (archive_url "1.0"); ChecksumURL := None;
     ChecksumSignatureURL := None |}.

(** A manifest whose first record is not hex. *)
Definition bad_manifest : list ascii :=
  list_ascii_of_string ("zz  terraform_1.0.0_darwin_amd64.zip" +:+ nl)
  ++ render_manifest (records "1.0.0" (Sample.Sum (archive "1.0.0"))).

Definition bad_release : World :=
  world empty_root
    {[ URL_String (archive_url "1.0.0") := archive "1.0.0";
       URL_String (manifest_url "1.0.0") := bad_manifest ]}
    [candidate v1_0_0 true] "".


(** A version as [exec] builds it from the name of its directory. *)
Definition installed_version (v : Sample.ver) : tfVersion :=
  {| Version := v; URL := None; ChecksumURL := None; ChecksumSignatureURL := None |}.

(** A manifest with two records for the archive of 1.0.0: the first
    carries the digest of the archive, the second another digest. *)
Definition two_records : list (list ascii * string) :=
  [(Sample.Sum (archive "1.0.0"), archive_name "1.0.0");
   (wrong_sum, archive_name "1.0.0")].

Definition release_two_records : World :=
  world empty_root
    {[ URL_String (archive_url "1.0.0") := archive "1.0.0";
       URL_String (manifest_url "1.0.0") := render_manifest two_records ]}
    [candidate v1_0_0 true] "".

(** The release of 1.0.0 with the digest of its archive in the manifest. *)
Definition verified_release : World := release (Sample.Sum (archive "1.0.0")).

(** The release of 1.0.0 when the site cannot be reached for the archive. *)
Definition unreachable : World :=
  world empty_root ∅ [candidate v1_0_0 true] "".


(** The release of 1.0.0 and an installed 0.13.0 for a configuration that
    loads and has no [terraform] block. *)
Definition no_terraform_block : World :=
  {| fs := {[ versions := Dir; cache := Dir; dir_of v0_13_0 := Dir;
              bin_of v0_13_0 := File (list_ascii_of_string "binary 0.13.0") 493%N ]};
     denied := λ _, false;
     net := {[ URL_String (archive_url "1.0.0") := archive "1.0.0" ]};
     catalog := Some [candidate v1_0_0 false];
     config := None; out := []; gets := []; nil_block := true;
     release_pages := [baseURL +:+ "1.0.0/"] |}.

(** A configuration whose required version is no constraint. *)
Definition bad_config : World :=
  world empty_root ∅ [candidate v1_0_0 true] "latest".

(** 0.12.0 and 0.13.0 are installed with their binaries, whose mode is
    [mode]; 1.0.0 is released; the configuration requires [rv]. *)
Definition two_installed (mode : N) (rv : string) : World :=
  world {[ versions := Dir; cache := Dir;
           dir_of v0_12_0 := Dir;
           bin_of v0_12_0 := File (list_ascii_of_string "binary 0.12.0") mode;
           dir_of v0_13_0 := Dir;
           bin_of v0_13_0 := File (list_ascii_of_string "binary 0.13.0") mode ]}
    {[ URL_String (archive_url "1.0.0") := archive "1.0.0";
       URL_String (manifest_url "1.0.0")
         := render_manifest (records "1.0.0" (Sample.Sum (archive "1.0.0"))) ]}
    [candidate v1_0_0 true] rv.

(** A release whose archive holds a [README] and no binary, and which has
    no manifest. *)
Definition readme_only : World :=
  world empty_root
    {[ URL_String (archive_url "1.0.0")
         := list_ascii_of_string ("PKREADME" +:+ nl +:+ "no binary here") ]}
    [candidate v1_0_0 false] "".

(** A manifest in which the record of the archive is followed by text
    that is no record. *)
Definition trailing_text : list ascii :=
  list_ascii_of_string ("-- not a record --" +:+ nl).

Definition release_trailing_text : World :=
  world empty_root
    {[ URL_String (archive_url "1.0.0") := archive "1.0.0";
       URL_String (manifest_url "1.0.0")
         := render_manifest [(repeat "001"%char 32, "terraform_1.0.0_darwin_amd64.zip")]
            ++ render_record (Sample.Sum (archive "1.0.0"), archive_name "1.0.0")
            ++ trailing_text ]}
    [candidate v1_0_0 true] "".


(** The release site: links are absolute, and the path of a location is
    what follows the host. *)
Definition site : Site :=
  {| url_Parse := λ s,
       Ok {| URL_String := s;
             Path := match strip_prefix "https://releases.hashicorp.com" s with
                     | Some p => p
                     | None => s
                     end |};
     runtime_GOOS := "linux";
     runtime_GOARCH := "amd64" |}.

#[local] Existing Instance site.

Definition plain_link (h : string) : anchor :=
  {| href := Some h; data_os := None; data_arch := None; data_version := None |}.

Definition archive_anchor (v os arch : string) : anchor :=
  {| href := Some (baseURL +:+ v +:+ "/terraform_" +:+ v +:+ "_" +:+ os +:+ "_" +:+ arch
                   +:+ ".zip");
     data_os := Some os; data_arch := Some arch; data_version := Some v |}.

(** The anchors of the page of a release, up to the archive for the
    platform and past it. *)
Definition page_head (v : string) : list anchor :=
  [ plain_link "../";
    plain_link (URL_String (manifest_url v));
    plain_link (URL_String (manifest_url v) +:+ ".sig");
    archive_anchor v "darwin" "amd64" ].

Definition page_tail (v : string) : list anchor :=
  [ archive_anchor v "windows" "amd64" ].

Definition page_of (v : string) : list anchor :=
  page_head v ++ archive_anchor v "linux" "amd64" :: page_tail v.

(** The page of a release that was not built for the platform. *)
Definition page_darwin_only : list anchor :=
  [ plain_link "../"; archive_anchor "0.1.0" "darwin" "amd64" ].

(** The release site with two releases, scraped. *)
Definition scraped_site : World :=
  world empty_root
    {[ URL_String (archive_url "1.0.0") := archive "1.0.0";
       URL_String (manifest_url "1.0.0")
         := render_manifest (records "1.0.0" (Sample.Sum (archive "1.0.0"))) ]}
    (candidates [page_of "0.13.0"; page_darwin_only; page_of "1.0.0"]) "".

End Scenario.

(* ===================================================================== *)
(** ** What is assumed of the libraries *)

Section Theory.

Context {lib : Env}.

Local Abbreviation tfVersion := (tfVersion version_Version).
Local Abbreviation World := (World version_Version).

(** [Compare] is a total preorder on versions (distinct versions may
    compare equal: build metadata is ignored). *)
Hypothesis Compare_flip : ∀ a b, Compare b a = CompOpp (Compare a b).
Hypothesis Compare_trans :
  ∀ a b c, Compare a b ≠ Gt → Compare b c ≠ Gt → Compare a c ≠ Gt.

(** [sort.Slice]: the result is a rearrangement of the slice in which no
    element is less than its predecessor, provided [less] is a strict
    weak ordering.  Nothing is promised on the order of equal elements. *)
Hypothesis sort_Slice_Permutation :
  ∀ A (less : A → A → bool) l, Permutation l (sort_Slice A less l).
Hypothesis sort_Slice_Sorted :
  ∀ A (less : A → A → bool) l,
    strict_weak less → Sorted (λ x y, less y x = false) (sort_Slice A less l).

(* ===================================================================== *)
(** ** Sorted rearrangements of one list *)

Local Open Scope nat_scope.

Section SortedLists.

Context {A : Type}.
Variable leb : A → A → bool.
Hypothesis leb_total : ∀ a b, leb a b = true ∨ leb b a = true.
Hypothesis leb_trans : ∀ a b c, leb a b = true → leb b c = true → leb a c = true.

Lemma countb_app (p : A → bool) (l k : list A) :
  countb p (l ++ k) = countb p l + countb p k.
Proof. induction l as [|x l IH]; simpl; [done | rewrite IH; lia]. Qed.

Lemma countb_Permutation (p : A → bool) (l k : list A) :
  Permutation l k → countb p l = countb p k.
Proof. induction 1; simpl; lia. Qed.

Lemma countb_le_length (p : A → bool) (l : list A) : countb p l ≤ length l.
Proof. induction l as [|x l IH]; simpl; [lia | destruct (p x); lia]. Qed.

Lemma countb_all (p : A → bool) (l : list A) :
  Forall (λ x, p x = true) l → countb p l = length l.
Proof. induction 1 as [|x l Hx _ IH]; simpl; [done | rewrite Hx, IH; done]. Qed.

Lemma countb_none (p : A → bool) (l : list A) :
  Forall (λ x, p x = false) l → countb p l = 0.
Proof. induction 1 as [|x l Hx _ IH]; simpl; [done | rewrite Hx, IH; done]. Qed.

Lemma countb_mono (p q : A → bool) (l : list A) :
  (∀ x, p x = true → q x = true) → countb p l ≤ countb q l.
Proof.
  intros Hpq. induction l as [|x l IH]; simpl; [lia|].
  destruct (p x) eqn:Hp; [rewrite (Hpq _ Hp); lia | destruct (q x); lia].
Qed.

Lemma leb_refl (a : A) : leb a a = true.
Proof. destruct (leb_total a a); done. Qed.

(** Around a position of a sorted list: what comes before is below, what
    comes after is above. *)
Lemma StronglySorted_middle (l k : list A) (x : A) :
  StronglySorted (λ a b, leb a b = true) (l ++ x :: k) →
  Forall (λ a, leb a x = true) l ∧ Forall (λ b, leb x b = true) k.
Proof.
  induction l as [|y l IH]; simpl; intros Hs.
  - apply StronglySorted_inv in Hs as [_ Hk]. split; [constructor | exact Hk].
  - apply StronglySorted_inv in Hs as [Hs Hy].
    destruct (IH Hs) as [Hl Hk]. split; [|exact Hk].
    constructor; [|exact Hl].
    apply Forall_app in Hy as [_ Hy]. by apply Forall_cons in Hy as [Hy _].
Qed.

(** In a sorted list, more than [i] elements are at most the one at
    position [i], and at most [i] are properly below it. *)
Lemma sorted_count_le (l : list A) (i : nat) (x : A) :
  StronglySorted (λ a b, leb a b = true) l → l !! i = Some x →
  i < countb (λ a, leb a x) l.
Proof.
  intros Hs Hi. pose proof (lookup_lt_Some _ _ _ Hi) as Hlt.
  rewrite <- (take_drop_middle l i x Hi) in Hs |- *.
  destruct (StronglySorted_middle _ _ _ Hs) as [Hl _].
  rewrite countb_app, (countb_all _ _ Hl), length_take. simpl.
  rewrite leb_refl. lia.
Qed.

Lemma sorted_count_below (l : list A) (i : nat) (y : A) :
  StronglySorted (λ a b, leb a b = true) l → l !! i = Some y →
  countb (λ a, negb (leb y a)) l ≤ i.
Proof.
  intros Hs Hi. pose proof (lookup_lt_Some _ _ _ Hi) as Hlt.
  rewrite <- (take_drop_middle l i y Hi) in Hs |- *.
  destruct (StronglySorted_middle _ _ _ Hs) as [_ Hk].
  rewrite countb_app. simpl. rewrite leb_refl. simpl.
  rewrite (countb_none _ (drop (S i) l)).
  - pose proof (countb_le_length (λ a, negb (leb y a)) (take i l)) as Hc.
    rewrite length_take in Hc. lia.
  - eapply Forall_impl; [exact Hk|]. simpl. intros b Hb. by rewrite Hb.
Qed.

Lemma sorted_perm_below (l k : list A) (i : nat) (x y : A) :
  StronglySorted (λ a b, leb a b = true) l →
  StronglySorted (λ a b, leb a b = true) k →
  Permutation l k → l !! i = Some x → k !! i = Some y → leb y x = true.
Proof.
  intros Hl Hk Hp Hx Hy. destruct (leb y x) eqn:Hyx; [done|]. exfalso.
  pose proof (sorted_count_le _ _ _ Hl Hx) as H1.
  pose proof (sorted_count_below _ _ _ Hk Hy) as H2.
  rewrite (countb_Permutation _ _ _ Hp) in H1.
  pose proof (countb_mono (λ a, leb a x) (λ a, negb (leb y a)) k) as H3.
  cut (countb (λ a, leb a x) k ≤ countb (λ a, negb (leb y a)) k); [lia|].
  apply H3. intros a Ha. destruct (leb y a) eqn:Hya; [|done].
  by rewrite (leb_trans _ _ _ Hya Ha) in Hyx.
Qed.

(** Two sorted rearrangements of one list agree position by position, up
    to the order's equivalence. *)
Lemma sorted_perm_pointwise (l k : list A) :
  StronglySorted (λ a b, leb a b = true) l →
  StronglySorted (λ a b, leb a b = true) k →
  Permutation l k →
  Forall2 (λ x y, leb x y = true ∧ leb y x = true) l k.
Proof.
  intros Hl Hk Hp. apply Forall2_same_length_lookup_2.
  - by apply Permutation_length.
  - intros i x y Hx Hy. split.
    + symmetry in Hp. exact (sorted_perm_below k l i y x Hk Hl Hp Hy Hx).
    + exact (sorted_perm_below l k i x y Hl Hk Hp Hx Hy).
Qed.

Lemma StronglySorted_snoc (R : A → A → Prop) (l : list A) (x : A) :
  StronglySorted R l → Forall (λ a, R a x) l → StronglySorted R (l ++ [x]).
Proof.
  induction 1 as [|y l Hs IH Hy]; simpl; intros Hx.
  - repeat constructor.
  - apply Forall_cons in Hx as [Hyx Hx]. constructor; [by apply IH|].
    apply Forall_app. split; [exact Hy | by constructor].
Qed.

Lemma StronglySorted_rev (R : A → A → Prop) (l : list A) :
  StronglySorted R l → StronglySorted (λ a b, R b a) (rev l).
Proof.
  induction 1 as [|y l Hs IH Hy]; simpl; [constructor|].
  apply StronglySorted_snoc; [exact IH|].
  apply List.Forall_forall. intros a Ha. apply List.in_rev in Ha.
  revert a Ha. by apply List.Forall_forall.
Qed.

End SortedLists.

(* ===================================================================== *)
(** ** The order of versions and the two sorts *)

Lemma Compare_refl (a : version_Version) : Compare a a = Eq.
Proof. pose proof (Compare_flip a a) as H. destruct (Compare a a); done. Qed.

Lemma LessThan_true (a b : version_Version) : LessThan a b = true ↔ Compare a b = Lt.
Proof. unfold LessThan. destruct (Compare a b); split; done. Qed.

Lemma LessThan_false (a b : version_Version) : LessThan a b = false ↔ Compare b a ≠ Gt.
Proof.
  unfold LessThan. rewrite (Compare_flip a b).
  destruct (Compare a b); simpl; split; done.
Qed.

Lemma LessThan_trans (a b c : version_Version) :
  LessThan a b = true → LessThan b c = true → LessThan a c = true.
Proof.
  rewrite !LessThan_true. intros Hab Hbc.
  assert (Compare a c ≠ Gt) as Hac.
  { apply (Compare_trans a b c); congruence. }
  destruct (Compare a c) eqn:E; [|done|done]. exfalso.
  (* a and c are equivalent, so c is at most b, against b below c *)
  assert (Compare c b ≠ Gt) as Hcb.
  { apply (Compare_trans c a b); [rewrite (Compare_flip a c), E; done | congruence]. }
  rewrite (Compare_flip b c), Hbc in Hcb. done.
Qed.

Lemma LessThan_neg_trans (a b c : version_Version) :
  LessThan a b = false → LessThan b c = false → LessThan a c = false.
Proof. rewrite !LessThan_false. intros Hba Hcb. by apply (Compare_trans c b a). Qed.

Lemma asc_strict_weak :
  strict_weak (λ ti tj : tfVersion, LessThan (Version ti) (Version tj)).
Proof.
  split; [|split].
  - intros a. apply LessThan_false. by rewrite Compare_refl.
  - intros a b c. apply LessThan_trans.
  - intros a b c. apply LessThan_neg_trans.
Qed.

Lemma dsc_strict_weak :
  strict_weak (λ ti tj : tfVersion, LessThan (Version tj) (Version ti)).
Proof.
  split; [|split].
  - intros a. apply LessThan_false. by rewrite Compare_refl.
  - intros a b c H1 H2. exact (LessThan_trans _ _ _ H2 H1).
  - intros a b c H1 H2. exact (LessThan_neg_trans _ _ _ H2 H1).
Qed.

Lemma StronglySorted_impl {A} (R S : A → A → Prop) (l : list A) :
  (∀ x y, R x y → S x y) → StronglySorted R l → StronglySorted S l.
Proof.
  intros HRS. induction 1 as [|x l Hs IH Hx]; constructor; [exact IH|].
  eapply Forall_impl; [exact Hx | apply HRS].
Qed.

Lemma strict_weak_StronglySorted {A} (less : A → A → bool) (l : list A) :
  strict_weak less →
  Sorted (λ x y, less y x = false) l → StronglySorted (λ x y, less y x = false) l.
Proof.
  intros (_ & _ & Hneg). apply Sorted_StronglySorted.
  intros x y z Hyx Hzy. exact (Hneg _ _ _ Hzy Hyx).
Qed.

(** [sortAsc] puts the versions in non-decreasing order. *)
Lemma sortAsc_sorted (l : list tfVersion) :
  StronglySorted (λ x y, Compare (Version x) (Version y) ≠ Gt) (sortAsc l).
Proof.
  pose proof (strict_weak_StronglySorted _ _ asc_strict_weak
                (sort_Slice_Sorted _ _ l asc_strict_weak)) as H.
  eapply StronglySorted_impl; [|exact H].
  intros x y Hxy. simpl in Hxy. by apply LessThan_false.
Qed.

(** [sortDsc] puts the versions in non-increasing order. *)
Lemma sortDsc_sorted (l : list tfVersion) :
  StronglySorted (λ x y, Compare (Version y) (Version x) ≠ Gt) (sortDsc l).
Proof.
  pose proof (strict_weak_StronglySorted _ _ dsc_strict_weak
                (sort_Slice_Sorted _ _ l dsc_strict_weak)) as H.
  eapply StronglySorted_impl; [|exact H].
  intros x y Hxy. simpl in Hxy. by apply LessThan_false.
Qed.

Lemma sortAsc_Permutation (l : list tfVersion) : Permutation l (sortAsc l).
Proof. apply sort_Slice_Permutation. Qed.

Lemma sortDsc_Permutation (l : list tfVersion) : Permutation l (sortDsc l).
Proof. apply sort_Slice_Permutation. Qed.

Lemma lebV_true (x y : tfVersion) :
  lebV x y = true ↔ Compare (Version x) (Version y) ≠ Gt.
Proof. unfold lebV. rewrite negb_true_iff. apply LessThan_false. Qed.

Lemma lebV_total (x y : tfVersion) : lebV x y = true ∨ lebV y x = true.
Proof.
  rewrite !lebV_true, (Compare_flip (Version x) (Version y)).
  destruct (Compare (Version x) (Version y)); simpl; auto.
Qed.

Lemma lebV_trans (x y z : tfVersion) :
  lebV x y = true → lebV y z = true → lebV x z = true.
Proof. rewrite !lebV_true. apply Compare_trans. Qed.

Lemma lebV_antisym (x y : tfVersion) :
  lebV x y = true → lebV y x = true → Compare (Version x) (Version y) = Eq.
Proof.
  rewrite !lebV_true, (Compare_flip (Version x) (Version y)).
  destruct (Compare (Version x) (Version y)); simpl; done.
Qed.

(** C2, as the code has it.  Both sorts rearrange their input, [sortAsc]
    into non-decreasing and [sortDsc] into non-increasing order of
    [Compare].  Position by position, [sortAsc] and the reverse of
    [sortDsc] hold versions that compare equal; the two sequences are the
    same when candidates whose versions compare equal are the same
    candidate. *)
Theorem sortAsc_reverse_sortDsc (l : list tfVersion) :
  Permutation l (sortAsc l) ∧
  Permutation l (sortDsc l) ∧
  StronglySorted (λ x y, Compare (Version x) (Version y) ≠ Gt) (sortAsc l) ∧
  StronglySorted (λ x y, Compare (Version y) (Version x) ≠ Gt) (sortDsc l) ∧
  Forall2 (λ x y, Compare (Version x) (Version y) = Eq) (sortAsc l) (rev (sortDsc l)) ∧
  ((∀ x y, In x l → In y l → Compare (Version x) (Version y) = Eq → x = y) →
   sortAsc l = rev (sortDsc l)).
Proof.
  pose proof (sortAsc_Permutation l) as Pa.
  pose proof (sortDsc_Permutation l) as Pd.
  pose proof (sortAsc_sorted l) as Sa.
  pose proof (sortDsc_sorted l) as Sd.
  assert (Forall2 (λ x y, Compare (Version x) (Version y) = Eq)
            (sortAsc l) (rev (sortDsc l))) as Hpt.
  { eapply Forall2_impl.
    - apply (sorted_perm_pointwise lebV lebV_total lebV_trans).
      + eapply StronglySorted_impl; [|exact Sa]. intros x y. apply lebV_true.
      + apply StronglySorted_rev in Sd.
        eapply StronglySorted_impl; [|exact Sd]. intros x y. apply lebV_true.
      + rewrite <- Pa, <- Permutation_rev. exact Pd.
    - intros x y [Hxy Hyx]. by apply lebV_antisym. }
  repeat split; try done.
  intros Hties. apply list_eq_Forall2.
  apply Forall2_same_length_lookup_2; [by eapply Forall2_length|].
  intros i x y Hx Hy.
  pose proof (Forall2_lookup_lr _ _ _ _ _ _ Hpt Hx Hy) as Hxy.
  apply Hties; [| |exact Hxy].
  - apply (Permutation_in _ (Permutation_sym Pa)).
    apply list_elem_of_In. by eapply list_elem_of_lookup_2.
  - apply (Permutation_in _ (Permutation_sym Pd)), in_rev.
    apply list_elem_of_In. by eapply list_elem_of_lookup_2.
Qed.

(* ===================================================================== *)
(** ** What a computation prints *)

Lemma emits_silent {A} (P : string → Prop) (m : M A) :
  (∀ w, out (m w).2 = out w) → emits P m.
Proof. intros H w. exists []. rewrite H, app_nil_r. by split. Qed.

Lemma emits_mret {A} (P : string → Prop) (a : A) : emits P (mret a : M A).
Proof. by apply emits_silent. Qed.

Lemma emits_halt {A} (P : string → Prop) (s : stop) : emits P (halt s : M A).
Proof. by apply emits_silent. Qed.

Lemma emits_Printf (P : string → Prop) (s : string) : P s → emits P (Printf s).
Proof. intros Hs w. exists [s]. split; [done | by constructor]. Qed.

Lemma emits_bind {A B} (P : string → Prop) (m : M A) (k : A → M B) :
  emits P m → (∀ a, emits P (k a)) → emits P (m ≫= k).
Proof.
  intros Hm Hk w. unfold mbind, M_bind.
  destruct (Hm w) as (d & Hd & HP). destruct (m w) as [[a|s] w']; simpl in *.
  - destruct (Hk a w') as (d' & Hd' & HP'). exists (d ++ d').
    rewrite Hd', Hd, app_assoc. split; [done | by apply Forall_app].
  - by exists d.
Qed.

Lemma emits_defer {A} (P : string → Prop) (d : M unit) (m : M A) :
  emits P d → emits P m → emits P (defer d m).
Proof.
  intros Hd Hm w. unfold defer.
  destruct (Hm w) as (e & He & HP). destruct (m w) as [[a|s] w']; simpl in *.
  - destruct (Hd w') as (e' & He' & HP'). exists (e ++ e').
    rewrite He', He, app_assoc. split; [done | by apply Forall_app].
  - by exists e.
Qed.

Lemma emits_orFatal {A} (P : string → Prop) (m : M (result A)) :
  emits P m → emits P (orFatal m).
Proof.
  intros Hm. apply emits_bind; [exact Hm|].
  intros [a|]; [apply emits_mret | apply emits_halt].
Qed.

Lemma emits_os_IsNotExist P p : emits P (os_IsNotExist p).
Proof. by apply emits_silent. Qed.

Lemma emits_os_Mkdir P p : emits P (os_Mkdir p).
Proof.
  apply emits_silent. intros w. unfold os_Mkdir.
  destruct (fs w !! p); [done|]. by destruct (denied w p).
Qed.

Lemma emits_os_Create P p : emits P (os_Create p).
Proof.
  apply emits_silent. intros w. unfold os_Create.
  destruct (fs w !! p) as [[|c m]|]; [done|done|]. by destruct (denied w p).
Qed.

Lemma emits_write_file P p data : emits P (write_file p data).
Proof.
  apply emits_silent. intros w. unfold write_file.
  by destruct (fs w !! p) as [[|c m]|].
Qed.

Lemma emits_File_Chmod P p m : emits P (File_Chmod p m).
Proof.
  apply emits_silent. intros w. unfold File_Chmod.
  by destruct (fs w !! p) as [[|c m']|].
Qed.

Lemma emits_os_Remove P p : emits P (os_Remove p).
Proof.
  apply emits_silent. intros w. unfold os_Remove. by destruct (fs w !! p).
Qed.

Lemma emits_read_file P p : emits P (read_file p).
Proof.
  apply emits_silent. intros w. unfold read_file.
  by destruct (fs w !! p) as [[|c m]|].
Qed.

Lemma emits_http_Get P u : emits P (http_Get u).
Proof.
  apply emits_silent. intros w. unfold http_Get. by destruct (net w !! u).
Qed.

(* ===================================================================== *)
(** ** The scanner *)

Lemma hex_char_cases (k : N) :
  (k < 16)%N →
  hexDigit (hex_char k) = Some k ∧ isSpace (hex_char k) = false.
Proof.
  intros Hk.
  assert (k = 0 ∨ k = 1 ∨ k = 2 ∨ k = 3 ∨ k = 4 ∨ k = 5 ∨ k = 6 ∨ k = 7 ∨
          k = 8 ∨ k = 9 ∨ k = 10 ∨ k = 11 ∨ k = 12 ∨ k = 13 ∨ k = 14 ∨ k = 15)%N
    as Hc by lia.
  repeat (destruct Hc as [->|Hc]; [by vm_compute|]). subst k. by vm_compute.
Qed.

Lemma isNewline_isSpace (c : ascii) : isNewline c = true → isSpace c = true.
Proof. unfold isNewline. intros ->%Ascii.eqb_eq. done. Qed.

Lemma hex_of_byte_digits (b : ascii) :
  ∃ h1 h2 v1 v2,
    hex_of_byte b = [h1; h2] ∧ hexDigit h1 = Some v1 ∧ hexDigit h2 = Some v2 ∧
    isSpace h1 = false ∧ ascii_of_N (v1 * 16 + v2) = b.
Proof.
  unfold hex_of_byte. set (k := N_of_ascii b).
  assert (k < 256)%N as Hk by apply N_ascii_bounded.
  assert (k / 16 < 16)%N as H1 by (apply N.Div0.div_lt_upper_bound; lia).
  assert (k mod 16 < 16)%N as H2 by (apply N.mod_lt; lia).
  destruct (hex_char_cases _ H1) as [D1 S1].
  destruct (hex_char_cases _ H2) as [D2 _].
  exists (hex_char (k / 16)), (hex_char (k mod 16)), (k / 16)%N, (k mod 16)%N.
  repeat split; try done.
  replace (k / 16 * 16 + k mod 16)%N with k.
  - apply ascii_N_embedding.
  - rewrite (N.div_mod k 16) at 1; lia.
Qed.

(** The hex verb reads a digest back from its rendering. *)
Lemma hexString_render (d rest : list ascii) :
  hexString (length (concat (map hex_of_byte d))) (concat (map hex_of_byte d) ++ rest)
  = (None, d, rest).
Proof.
  induction d as [|b d IH]; [simpl; by destruct rest|].
  destruct (hex_of_byte_digits b) as (h1 & h2 & v1 & v2 & Hb & D1 & D2 & _ & Hbyte).
  cbn [map concat]. rewrite Hb. cbn [app length hexString].
  rewrite D1, D2, IH, Hbyte. done.
Qed.

Lemma length_hex (d : list ascii) : length (concat (map hex_of_byte d)) = 2 * length d.
Proof. induction d as [|b d IH]; simpl; [done|]. rewrite IH. lia. Qed.

Lemma token_plain (f rest : list ascii) (c : ascii) :
  forallb (λ c, negb (isSpace c)) f = true → isSpace c = true →
  token (f ++ c :: rest) = (f, c :: rest).
Proof.
  intros Hf Hc. induction f as [|a f IH]; simpl in *.
  - by rewrite Hc.
  - apply andb_true_iff in Hf as [Ha Hf]. apply negb_true_iff in Ha.
    rewrite Ha, (IH Hf). done.
Qed.

Lemma SkipSpace_word (c : ascii) (s : list ascii) :
  isSpace c = false → SkipSpace (c :: s) = (None, c :: s).
Proof.
  intros Hc. simpl. destruct (isNewline c) eqn:E.
  - apply isNewline_isSpace in E. congruence.
  - by rewrite Hc.
Qed.

(** The one way through [Fscanf] on which both operands are stored. *)
Lemma Fscanf_both (body s1 sum s2 s3 w s4 : list ascii) (h b c a : ascii) :
  SkipSpace body = (None, h :: s1) →
  hexString 64 (h :: s1) = (None, b :: sum, c :: s2) →
  isSpace c = true → isNewline c = false →
  SkipSpace (skip_blanks s2) = (None, a :: s3) →
  token (a :: s3) = (w, s4) →
  Fscanf body
  = ({| n := 2; err := None; checksum := b :: sum;
        filename := string_of_list_ascii w |}, tail s4).
Proof.
  intros H1 H2 Hc Hn H3 H4. unfold Fscanf.
  rewrite H1, H2, Hc, Hn, H3, H4. done.
Qed.

(** One call on a well-formed record delivers the record and leaves the
    records after it. *)
Lemma Fscanf_record (d : list ascii) (f : string) (rest : list ascii) :
  length d = 32 → plain_name f →
  Fscanf (render_record (d, f) ++ rest)
  = ({| n := 2; err := None; checksum := d; filename := f |}, rest).
Proof.
  intros Hd [Hne Hf]. unfold render_record. cbn [fst snd].
  destruct (list_ascii_of_string f) as [|a fl] eqn:Hfl.
  { exfalso. apply Hne. rewrite <- (string_of_list_ascii_of_string f), Hfl. done. }
  assert (isSpace a = false) as Ha.
  { simpl in Hf. apply andb_true_iff in Hf as [Ha _]. by apply negb_true_iff. }
  destruct d as [|b d]; [done|].
  set (tl := (a :: fl) ++ "010"%char :: rest).
  pose proof (hexString_render (b :: d) (" "%char :: " "%char :: tl)) as Hh.
  rewrite length_hex, Hd in Hh. change (2 * 32) with 64 in Hh.
  replace ((concat (map hex_of_byte (b :: d)) ++ [" "; " "]%char ++ (a :: fl) ++ ["010"%char]) ++ rest)
    with (concat (map hex_of_byte (b :: d)) ++ " "%char :: " "%char :: tl)
    by (unfold tl; rewrite <- !app_assoc; done).
  cbn [map concat] in Hh |- *.
  destruct (hex_of_byte_digits b) as (h1 & h2 & v1 & v2 & Hb & _ & _ & S1 & _).
  rewrite Hb in Hh |- *. cbn [app] in Hh |- *.
  etrans.
  { eapply (Fscanf_both _ _ d (" "%char :: tl) (fl ++ "010"%char :: rest)
              (a :: fl) ("010"%char :: rest)
              h1 b " "%char a).
    - by apply SkipSpace_word.
    - exact Hh.
    - done.
    - done.
    - unfold tl. cbn [app skip_blanks].
      change (isSpace " " && negb (isNewline " ")) with true.
      cbn iota. destruct (isSpace a && negb (isNewline a)) eqn:E.
      + rewrite Ha in E. done.
      + by apply SkipSpace_word.
    - apply (token_plain (a :: fl) rest "010"%char Hf). done. }
  cbn [tail]. rewrite <- Hfl, string_of_list_ascii_of_string. done.
Qed.

Lemma SkipSpace_length (s r : list ascii) (e : option scan_error) :
  SkipSpace s = (e, r) → length r ≤ length s.
Proof.
  revert r e. induction s as [|c s IH]; simpl; intros r e H.
  - injection H as <- <-. done.
  - destruct (isNewline c); [injection H as <- <-; simpl; lia|].
    destruct (isSpace c); [apply IH in H; lia | injection H as <- <-; done].
Qed.

Lemma skip_blanks_length (s : list ascii) : length (skip_blanks s) ≤ length s.
Proof.
  induction s as [|c s IH]; simpl; [done|].
  destruct (isSpace c && negb (isNewline c)); simpl; lia.
Qed.

Lemma token_length (s w r : list ascii) : token s = (w, r) → length r ≤ length s.
Proof.
  revert w r. induction s as [|c s IH]; simpl; intros w r H.
  - injection H as <- <-. done.
  - destruct (isSpace c); [injection H as <- <-; done|].
    destruct (token s) as [w' r'] eqn:E. injection H as <- <-.
    specialize (IH _ _ eq_refl). lia.
Qed.

Lemma hexString_length (lim : nat) (s buf r : list ascii) (e : option scan_error) :
  hexString lim s = (e, buf, r) → length r ≤ length s.
Proof.
  revert s buf r e.
  induction lim as [lim IH] using (well_founded_induction lt_wf).
  intros s buf r e H. destruct lim as [|lim1]; simpl in H.
  { injection H as <- <- <-. done. }
  destruct s as [|c1 s1]; [injection H as <- <- <-; done|].
  destruct (hexDigit c1); [|injection H as <- <- <-; done].
  destruct lim1 as [|lim2]; [injection H as <- <- <-; simpl; lia|].
  destruct s1 as [|c2 s2]; [injection H as <- <- <-; simpl; lia|].
  destruct (hexDigit c2); [|injection H as <- <- <-; simpl; lia].
  destruct (hexString lim2 s2) as [[e' buf'] r'] eqn:E.
  injection H as <- <- <-. apply IH in E; [simpl; lia | lia].
Qed.

(** A call that reports no error has stored both operands: the branch of
    [install] for [n != 2] without an error is never taken. *)
Lemma Fscanf_two (body : list ascii) :
  err (Fscanf body).1 = None → n (Fscanf body).1 = 2.
Proof.
  unfold Fscanf.
  destruct (SkipSpace body) as [[e|] [|h s1]]; try done.
  destruct (hexString 64 (h :: s1)) as [[[e|] [|b sum]] [|c s2]]; try done.
  destruct (negb (isSpace c)); [done|]. destruct (isNewline c); [done|].
  destruct (SkipSpace (skip_blanks s2)) as [[e|] [|a s3]]; try done.
  by destruct (token (a :: s3)).
Qed.

(** A call that reports no error has consumed input. *)
Lemma Fscanf_progress (body : list ascii) :
  err (Fscanf body).1 = None → length (Fscanf body).2 < length body.
Proof.
  unfold Fscanf.
  destruct (SkipSpace body) as [[e|] [|h s1]] eqn:H1; try done.
  destruct (hexString 64 (h :: s1)) as [[[e|] [|b sum]] [|c s2]] eqn:H2; try done.
  destruct (negb (isSpace c)); [done|]. destruct (isNewline c); [done|].
  destruct (SkipSpace (skip_blanks s2)) as [[e|] [|a s3]] eqn:H3; try done.
  destruct (token (a :: s3)) as [w s4] eqn:H4. intros _. cbn [snd].
  apply SkipSpace_length in H1, H3. apply hexString_length in H2.
  apply token_length in H4. pose proof (skip_blanks_length s2).
  destruct s4; simpl in *; lia.
Qed.

(** The fuel [install] gives the loop over the manifest is never used up. *)
Lemma scan_fuel_enough (fuel : nat) (name : string) (sum body : list ascii) (w : World) :
  length body < fuel → (scan_manifest fuel name sum body w).1 ≠ Stop OutOfFuel.
Proof.
  revert body w. induction fuel as [|fuel IH]; intros body w Hlen; [lia|].
  simpl. pose proof (Fscanf_two body) as H2. pose proof (Fscanf_progress body) as Hp.
  destruct (Fscanf body) as [r body']. cbn [fst snd] in *.
  destruct (err r) as [[]|]; try done.
  rewrite (H2 eq_refl). simpl.
  destruct (String.eqb (filename r) name).
  - by destruct (negb _).
  - apply IH. specialize (Hp eq_refl). lia.
Qed.

(** The loop on a call that did not store both operands: the process ends
    in [log.Fatal], except at the end of the input where the loop ends
    with the warning. *)
Lemma scan_manifest_short (fuel : nat) (name : string) (sum body : list ascii) (w : World) :
  n (Fscanf body).1 ≠ 2 →
  scan_manifest (S fuel) name sum body w =
  match err (Fscanf body).1 with
  | Some io_EOF => (Return true, add_out ("No checksum found" +:+ nl) w)
  | _ => (Stop Fatal, w)
  end.
Proof.
  intros Hn. simpl. pose proof (Fscanf_two body) as H2.
  destruct (Fscanf body) as [r body']. cbn [fst snd] in *.
  destruct (err r) as [[]|]; try done.
  by specialize (H2 eq_refl).
Qed.

(** The loop never prints "Bad format". *)
Lemma scan_manifest_emits (P : string → Prop) fuel name sum body :
  P ("No checksum found" +:+ nl) →
  P ("Checksum verification failed" +:+ nl) →
  emits P (scan_manifest fuel name sum body).
Proof.
  intros H1 H2. revert body.
  induction fuel as [|fuel IH]; intros body; simpl; [apply emits_halt|].
  pose proof (Fscanf_two body) as Ht.
  destruct (Fscanf body) as [r body']. cbn [fst] in Ht.
  destruct (err r) as [[]|].
  - apply emits_bind; [by apply emits_Printf | intros; apply emits_mret].
  - apply emits_halt.
  - apply emits_halt.
  - rewrite (Ht eq_refl). simpl.
    destruct (String.eqb (filename r) name); [|apply IH].
    destruct (negb _); [|apply emits_mret].
    apply emits_bind; [by apply emits_Printf | intros; apply emits_mret].
Qed.

(** The loop on a manifest of well-formed records: it stops at the first
    record for the archive, with a verdict on its digest, or at the end
    of the manifest with the warning. *)
Lemma scan_manifest_records (records : list (list ascii * string)) (fuel : nat)
    (name : string) (sum : list ascii) (w : World) :
  Forall well_formed records →
  length records < fuel →
  scan_manifest fuel name sum (render_manifest records) w =
  match List.find (λ r, String.eqb r.2 name) records with
  | Some r =>
      if bool_decide (sum = r.1) then (Return true, w)
      else (Return false, add_out ("Checksum verification failed" +:+ nl) w)
  | None => (Return true, add_out ("No checksum found" +:+ nl) w)
  end.
Proof.
  intros Hwf. revert fuel. induction Hwf as [|[d f] records [Hd Hf] _ IH]; intros fuel Hlen.
  - destruct fuel as [|fuel]; [simpl in Hlen; lia|]. done.
  - destruct fuel as [|fuel]; [simpl in Hlen; lia|].
    unfold render_manifest. cbn [map concat]. fold (render_manifest records).
    cbn [scan_manifest]. rewrite (Fscanf_record d f _ Hd Hf). cbn [err n filename checksum].
    cbn [Nat.eqb List.find snd fst].
    destruct (String.eqb f name).
    + cbn [fst]. by destruct (bool_decide (sum = d)).
    + apply IH. simpl in Hlen. lia.
Qed.

Lemma length_render_manifest (records : list (list ascii * string)) :
  length records ≤ length (render_manifest records).
Proof.
  induction records as [|[d f] records IH]; [simpl; lia|].
  unfold render_manifest. cbn [map concat]. fold (render_manifest records).
  unfold render_record. rewrite !length_app. cbn [length]. lia.
Qed.

(* ===================================================================== *)
(** ** What [install] prints *)

Lemma emits_extract (P : string → Prop) dir files : emits P (extract dir files).
Proof.
  induction files as [|file files IH]; simpl; [apply emits_mret|].
  apply emits_bind; [|intros; exact IH].
  unfold extract_entry. destruct (String.eqb file.1 "terraform"); [|apply emits_mret].
  apply emits_bind; [apply emits_orFatal, emits_os_Create|]. intros _.
  apply emits_bind; [apply emits_write_file|]. intros _.
  apply emits_orFatal, emits_File_Chmod.
Qed.

(** The lines [install] prints for the candidate it selected; "Bad
    format" is not one of them. *)
Lemma emits_install_version (P : string → Prop) (t : tfVersion) :
  P ("No checksum found" +:+ nl) →
  P ("Checksum verification failed" +:+ nl) →
  P ("Error removing file" +:+ nl) →
  P ("Successfully installed Terraform version " +:+ Version_String (Version t) +:+ nl) →
  emits P (install_version t).
Proof.
  intros H1 H2 H4 H5. unfold install_version.
  apply emits_bind; [apply emits_os_IsNotExist|]. intros missing.
  apply emits_bind.
  { destruct missing; [apply emits_orFatal, emits_os_Mkdir | apply emits_mret]. }
  intros _. destruct (URL t) as [url|]; [|apply emits_halt].
  apply emits_bind; [apply emits_orFatal, emits_os_Create|]. intros _.
  apply emits_defer.
  { unfold remove_archive. apply emits_bind; [apply emits_os_Remove|].
    intros [|]; [apply emits_mret | by apply emits_Printf]. }
  apply emits_bind; [apply emits_orFatal, emits_http_Get|]. intros body.
  apply emits_bind; [apply emits_write_file|]. intros _.
  apply emits_bind.
  { unfold verify. destruct (ChecksumURL t) as [c|].
    - apply emits_bind; [apply emits_orFatal, emits_http_Get|]. intros manifest.
      by apply scan_manifest_emits.
    - apply emits_bind; [by apply emits_Printf | intros; apply emits_mret]. }
  intros [|]; [|apply emits_mret].
  unfold unpack.
  apply emits_bind; [apply emits_orFatal, emits_read_file|]. intros content.
  apply emits_bind; [apply emits_orFatal, emits_mret|]. intros archive.
  apply emits_bind; [apply emits_extract|]. intros _.
  by apply emits_Printf.
Qed.

Lemma printed_emits {A} (P : string → Prop) (m : M A) (w : World) :
  emits P m → Forall P (printed w (m w).2).
Proof.
  intros Hm. destruct (Hm w) as (d & Hd & HP).
  unfold printed. by rewrite Hd, drop_app_length.
Qed.

(** Whatever the manifest holds, [install] does not print "Bad format". *)
Lemma install_version_never_bad_format (t : tfVersion) :
  emits (λ s, s ≠ "Bad format" +:+ nl) (install_version t).
Proof. apply emits_install_version; simpl; discriminate. Qed.

(* ===================================================================== *)
(** ** The selection of [install] *)

Lemma find_split {A} (p : A → bool) (l : list A) (x : A) :
  List.find p l = Some x →
  ∃ l1 l2, l = l1 ++ x :: l2 ∧ Forall (λ y, p y = false) l1 ∧ p x = true.
Proof.
  induction l as [|y l IH]; simpl; [done|].
  destruct (p y) eqn:Hy.
  - intros [= ->]. exists [], l. by repeat split.
  - intros Hf. destruct (IH Hf) as (l1 & l2 & -> & Hl1 & Hx).
    exists (y :: l1), l2. repeat split; [|done]. by constructor.
Qed.

(** The loop of [install] is the spec's [select] followed by the
    installation of the candidate selected. *)
Lemma install_loop_find (cs : list version_Constraint) (l : list tfVersion) :
  install_loop cs l =
  match List.find (λ c, Constraints_Check cs (Version c)) l with
  | Some t => install_version t
  | None => Printf ("None of the available Terraform versions matched the constraints" +:+ nl)
  end.
Proof.
  induction l as [|t l IH]; simpl; [done|].
  by destruct (Constraints_Check cs (Version t)).
Qed.

Lemma select_newest (cs : list version_Constraint) (l : list tfVersion) (t : tfVersion) :
  select cs l = Some t →
  In t l ∧ Constraints_Check cs (Version t) = true ∧
  ∀ t', In t' l → Constraints_Check cs (Version t') = true →
        Compare (Version t') (Version t) ≠ Gt.
Proof.
  unfold select. intros Hf.
  destruct (find_split _ _ _ Hf) as (l1 & l2 & Hl & Hl1 & Ht).
  pose proof (sortDsc_sorted l) as Hs. rewrite Hl in Hs.
  pose proof (sortDsc_Permutation l) as Hp.
  repeat split; [|exact Ht|].
  - apply (Permutation_in _ (Permutation_sym Hp)). rewrite Hl.
    apply in_or_app. right. by left.
  - intros t' Hin Hc.
    apply (Permutation_in _ Hp) in Hin. rewrite Hl in Hin.
    apply in_app_or in Hin as [Hin|[<-|Hin]].
    + rewrite List.Forall_forall in Hl1. rewrite (Hl1 _ Hin) in Hc. done.
    + by rewrite Compare_refl.
    + assert (StronglySorted (λ a b, lebV b a = true) (l1 ++ t :: l2)) as Hs'.
      { eapply StronglySorted_impl; [|exact Hs]. intros x y. apply lebV_true. }
      destruct (StronglySorted_middle (λ a b, lebV b a) _ _ _ Hs') as [_ Hk].
      rewrite List.Forall_forall in Hk. apply lebV_true, Hk, Hin.
Qed.

Lemma select_none (cs : list version_Constraint) (l : list tfVersion) :
  select cs l = None ↔ ∀ t, In t l → Constraints_Check cs (Version t) = false.
Proof.
  unfold select. pose proof (sortDsc_Permutation l) as Hp. split.
  - intros Hf t Hin. apply (Permutation_in _ Hp) in Hin.
    exact (List.find_none _ _ Hf t Hin).
  - intros Hall. destruct (List.find _ _) as [t|] eqn:Hf; [|done].
    apply List.find_some in Hf as [Hin Ht].
    apply (Permutation_in _ (Permutation_sym Hp)) in Hin.
    rewrite (Hall t Hin) in Ht. done.
Qed.

(** C1.  On any candidates and constraint the loop of [install] works on
    the candidates in descending order of version.  When a candidate
    satisfies the constraint, it installs the first such candidate of
    that order, whose version is the greatest satisfying one, and does not
    print the no-match message.  When none does, it prints the no-match
    message and returns.  So the message is printed exactly when no
    candidate satisfies the constraint. *)
Theorem install_selects_newest (cs : list version_Constraint) (l : list tfVersion) (w : World) :
  let no_match := "None of the available Terraform versions matched the constraints" +:+ nl in
  StronglySorted (λ x y, Compare (Version y) (Version x) ≠ Gt) (sortDsc l) ∧
  select cs l = List.find (λ c, Constraints_Check cs (Version c)) (sortDsc l) ∧
  match select cs l with
  | Some t =>
      install_loop cs (sortDsc l) w = install_version t w ∧
      In t l ∧ Constraints_Check cs (Version t) = true ∧
      (∀ t', In t' l → Constraints_Check cs (Version t') = true →
             Compare (Version t') (Version t) ≠ Gt)
  | None =>
      install_loop cs (sortDsc l) w = (Return tt, add_out no_match w)
  end ∧
  (select cs l = None ↔ ∀ t, In t l → Constraints_Check cs (Version t) = false) ∧
  (In no_match (printed w (install_loop cs (sortDsc l) w).2) ↔
   ∀ t, In t l → Constraints_Check cs (Version t) = false).
Proof.
  intros no_match. split; [apply sortDsc_sorted|]. split; [done|].
  rewrite install_loop_find. fold (select cs l).
  pose proof (select_none cs l) as Hnone.
  destruct (select cs l) as [t|] eqn:Hsel.
  - destruct (select_newest _ _ _ Hsel) as (Hin & Hc & Hmax).
    repeat split; try done.
    + intros Hall. by apply Hnone in Hall.
    + intros Hpr. exfalso.
      assert (emits (λ s, s ≠ no_match) (install_version t)) as He.
      { apply emits_install_version; unfold no_match; simpl; discriminate. }
      apply (printed_emits _ _ w) in He. rewrite List.Forall_forall in He.
      by apply (He _ Hpr).
    + intros Hall. rewrite (Hall t Hin) in Hc. done.
  - repeat split; try done.
    + intros _. by apply Hnone.
    + intros _. by apply Hnone.
    + intros _. unfold printed, Printf. simpl.
      rewrite drop_app_length. by left.
Qed.

(* ===================================================================== *)
(** ** Running a computation step by step *)

Lemma bind_Return {A B} (m : M A) (k : A → M B) (w w' : World) (a : A) :
  m w = (Return a, w') → (m ≫= k) w = k a w'.
Proof. intros H. unfold mbind, M_bind. by rewrite H. Qed.

Lemma bind_Stop {A B} (m : M A) (k : A → M B) (w w' : World) (s : stop) :
  m w = (Stop s, w') → (m ≫= k) w = (Stop s, w').
Proof. intros H. unfold mbind, M_bind. by rewrite H. Qed.

Lemma orFatal_Ok {A} (m : M (result A)) (w w' : World) (a : A) :
  m w = (Return (Ok a), w') → orFatal m w = (Return a, w').
Proof. intros H. unfold orFatal. by rewrite (bind_Return _ _ _ _ _ H). Qed.

Lemma orFatal_Err {A} (m : M (result A)) (w w' : World) :
  m w = (Return Err, w') → orFatal m w = (Stop Fatal, w').
Proof. intros H. unfold orFatal. by rewrite (bind_Return _ _ _ _ _ H). Qed.

Lemma defer_bind_Return {A B} (d : M unit) (m : M A) (k : A → M B) (w w' : World) (a : A) :
  m w = (Return a, w') → defer d (m ≫= k) w = defer d (k a) w'.
Proof. intros H. unfold defer. by rewrite (bind_Return _ _ _ _ _ H). Qed.

Lemma defer_Return {A} (d : M unit) (m : M A) (w w' : World) (a : A) :
  m w = (Return a, w') → defer d m w = (Return a, (d w').2).
Proof. intros H. unfold defer. by rewrite H. Qed.

Lemma defer_mret {A} (d : M unit) (a : A) (w : World) :
  defer d (mret a) w = (Return a, (d w).2).
Proof. done. Qed.

Lemma defer_Stop {A} (d : M unit) (m : M A) (w w' : World) (s : stop) :
  m w = (Stop s, w') → defer d m w = (Stop s, w').
Proof. intros H. unfold defer. by rewrite H. Qed.

Lemma os_Create_ok (p : string) (w : World) :
  creatable (fs w) (denied w) p →
  os_Create p w = (Return (Ok tt), set_fs <[p := File [] (created_mode (fs w) p)]> w).
Proof.
  intros [Hnd Hden]. unfold os_Create, created_mode.
  destruct (fs w !! p) as [[|c m]|]; [done|done|]. by rewrite Hden.
Qed.

Lemma write_file_ok (p : string) (data c : list ascii) (m : N) (w : World) :
  fs w !! p = Some (File c m) →
  write_file p data w = (Return tt, set_fs <[p := File (c ++ data) m]> w).
Proof. intros H. unfold write_file. by rewrite H. Qed.

Lemma http_Get_ok (u : string) (body : list ascii) (w : World) :
  net w !! u = Some body → http_Get u w = (Return (Ok body), add_get u w).
Proof. intros H. unfold http_Get. by rewrite H. Qed.

Lemma append_neq (s x : string) : x ≠ "" → s +:+ x ≠ s.
Proof.
  intros Hx. induction s as [|a s IH]; simpl; [done|].
  intros [= H]. by apply IH.
Qed.

(* ===================================================================== *)
(** ** The installation of the selected candidate *)

Section Candidate.

Variable t : tfVersion.
Variable url : url_URL.
Hypothesis t_URL : URL t = Some url.

Let dir : string := path_Join tfVersionsDirPath (Version_String (Version t)).
Let name : string := path_Base (Path url).
Let archivePath : string := path_Join cacheDirPath name.
Let bin : string := path_Join dir "terraform".

(** What is left of [install_version] once the archive is downloaded. *)
Let after_download (body : list ascii) : M unit :=
  defer (remove_archive archivePath)
    (proceed ← verify t name (sha256_Sum body);
     if (proceed : bool) then unpack t dir archivePath else mret tt).

(** The directory is created when it is missing. *)
Lemma make_dir {B} (k : M B) (w : World) :
  (fs w !! dir = None → denied w dir = false) →
  (missing ← os_IsNotExist dir;
   (if (missing : bool) then orFatal (os_Mkdir dir) else mret tt);; k) w
  = k (set_fs (λ f, with_dir f dir) w).
Proof.
  clearbody dir. intros Hdir.
  unfold mbind, M_bind, os_IsNotExist, orFatal, mbind, M_bind, os_Mkdir, with_dir.
  destruct w as [f dn nt ct cf o g nb rp]. cbn in *.
  destruct (f !! dir) as [nd|] eqn:Ed.
  - rewrite bool_decide_eq_false_2 by done. cbn. unfold set_fs. cbn. by rewrite Ed.
  - rewrite bool_decide_eq_true_2 by done. cbn. rewrite Ed, (Hdir eq_refl). cbn.
    unfold set_fs. cbn. by rewrite Ed.
Qed.

(** Up to the download: the directory is created when it is missing, the
    archive file is created or truncated in the cache, the archive is
    requested and copied into the file. *)
Lemma install_version_download (w : World) (body : list ascii) :
  (fs w !! dir = None → denied w dir = false) →
  creatable (with_dir (fs w) dir) (denied w) archivePath →
  net w !! URL_String url = Some body →
  ∃ w1,
    install_version t w = after_download body w1 ∧
    fs w1 = <[archivePath := File body (created_mode (with_dir (fs w) dir) archivePath)]>
              (with_dir (fs w) dir) ∧
    denied w1 = denied w ∧ net w1 = net w ∧ catalog w1 = catalog w ∧
    config w1 = config w ∧ out w1 = out w ∧
    gets w1 = gets w ++ [URL_String url].
Proof.
  intros Hdir Hcr Hnet.
  unfold install_version. fold dir.
  rewrite (make_dir _ w Hdir). rewrite t_URL. fold name. fold archivePath.
  set (w0 := set_fs (λ f, with_dir f dir) w).
  erewrite bind_Return; [|apply orFatal_Ok, os_Create_ok; exact Hcr].
  set (w0' := set_fs _ w0).
  erewrite defer_bind_Return; [|apply orFatal_Ok, http_Get_ok; exact Hnet].
  erewrite defer_bind_Return; [|apply write_file_ok; cbn; apply lookup_insert_eq].
  eexists. split; [reflexivity|]. cbn. rewrite insert_insert_eq. done.
Qed.

Lemma verify_none (sum : list ascii) (w : World) :
  ChecksumURL t = None →
  verify t name sum w = (Return true, add_out ("No checksum found" +:+ nl) w).
Proof. intros H. unfold verify. by rewrite H. Qed.

Lemma verify_records (curl : url_URL) (records : list (list ascii * string))
    (sum : list ascii) (w : World) :
  ChecksumURL t = Some curl →
  net w !! URL_String curl = Some (render_manifest records) →
  Forall well_formed records →
  verify t name sum w =
  match List.find (λ r, String.eqb r.2 name) records with
  | Some r =>
      if bool_decide (sum = r.1) then (Return true, add_get (URL_String curl) w)
      else (Return false,
            add_out ("Checksum verification failed" +:+ nl) (add_get (URL_String curl) w))
  | None =>
      (Return true, add_out ("No checksum found" +:+ nl) (add_get (URL_String curl) w))
  end.
Proof.
  intros Hc Hnet Hwf. unfold verify. rewrite Hc.
  erewrite bind_Return; [|apply orFatal_Ok, http_Get_ok; exact Hnet].
  apply scan_manifest_records; [exact Hwf|].
  pose proof (length_render_manifest records). lia.
Qed.

Lemma verify_accepted (sum : list ascii) (w : World) :
  accepted t w name sum →
  ∃ w2, verify t name sum w = (Return true, w2) ∧
        fs w2 = fs w ∧ denied w2 = denied w ∧
        (∃ d, out w2 = out w ++ d) ∧ (∃ g, gets w2 = gets w ++ g).
Proof.
  unfold accepted. destruct (ChecksumURL t) as [curl|] eqn:Hc.
  - intros (records & Hnet & Hwf & Hsum).
    rewrite (verify_records curl records sum w Hc Hnet Hwf).
    destruct (List.find _ records) as [r|].
    + rewrite bool_decide_eq_true_2 by (symmetry; by apply Hsum).
      eexists. split; [reflexivity|]. cbn.
      repeat split; [exists []; by rewrite app_nil_r | by eexists].
    + eexists. split; [reflexivity|]. cbn. repeat split; by eexists.
  - intros _. rewrite (verify_none sum w Hc).
    eexists. split; [reflexivity|]. cbn.
    repeat split; [by eexists | exists []; by rewrite app_nil_r].
Qed.

Lemma remove_archive_ok (w : World) (nd : node) :
  fs w !! archivePath = Some nd →
  remove_archive archivePath w = (Return tt, set_fs (delete archivePath) w).
Proof.
  intros H. unfold remove_archive.
  rewrite (bind_Return _ _ w (set_fs (delete archivePath) w) (Ok tt)); [done|].
  unfold os_Remove. by rewrite H.
Qed.

Lemma extract_entry_other (file : string * list ascii) (w : World) :
  String.eqb file.1 "terraform" = false → extract_entry dir file w = (Return tt, w).
Proof. intros H. unfold extract_entry. by rewrite H. Qed.

Lemma extract_entry_terraform (file : string * list ascii) (w : World) :
  String.eqb file.1 "terraform" = true →
  creatable (fs w) (denied w) bin →
  extract_entry dir file w = (Return tt, set_fs <[bin := File file.2 493%N]> w).
Proof.
  intros H Hcr. unfold extract_entry. rewrite H.
  apply String.eqb_eq in H. rewrite H.
  change (path_Join dir (path_Base "terraform")) with bin. clearbody bin.
  erewrite bind_Return; [|apply orFatal_Ok, os_Create_ok; exact Hcr].
  erewrite bind_Return; [|apply write_file_ok; cbn; apply lookup_insert_eq].
  erewrite orFatal_Ok; [reflexivity|].
  unfold File_Chmod. cbn. rewrite lookup_insert_eq. unfold set_fs. cbn.
  by rewrite !insert_insert_eq.
Qed.

(** The loop over the entries leaves in the binary the content of the
    last entry named [terraform], with mode 0755 (493). *)
Lemma extract_ok (files : list (string * list ascii)) (w : World) :
  creatable (fs w) (denied w) bin →
  extract dir files w =
  (Return tt,
   set_fs (λ f, match last_terraform files with
                | Some c => <[bin := File c 493%N]> f
                | None => f
                end) w).
Proof.
  clearbody bin. revert w. induction files as [|file files IH]; intros w Hcr.
  - destruct w; done.
  - cbn [extract last_terraform].
    destruct (String.eqb file.1 "terraform") eqn:E.
    + erewrite bind_Return; [|by apply extract_entry_terraform].
      rewrite IH.
      * destruct (last_terraform files); unfold set_fs; cbn; [|done].
        by rewrite insert_insert_eq.
      * split; cbn; rewrite lookup_insert_eq; done.
    + erewrite bind_Return; [|by apply extract_entry_other].
      rewrite (IH w Hcr). by destruct (last_terraform files).
Qed.

Lemma unpack_ok (w : World) (body : list ascii) (m : N) (files : list (string * list ascii)) :
  fs w !! archivePath = Some (File body m) →
  zip_OpenReader body = Ok files →
  creatable (fs w) (denied w) bin →
  unpack t dir archivePath w =
  (Return tt,
   add_out ("Successfully installed Terraform version " +:+ Version_String (Version t) +:+ nl)
     (set_fs (λ f, match last_terraform files with
                   | Some c => <[bin := File c 493%N]> f
                   | None => f
                   end) w)).
Proof.
  intros Ha Hz Hcr. unfold unpack.
  erewrite bind_Return; [|apply orFatal_Ok; unfold read_file; rewrite Ha; reflexivity].
  erewrite bind_Return; [|apply orFatal_Ok; rewrite Hz; reflexivity].
  erewrite bind_Return; [|by apply extract_ok]. done.
Qed.

Lemma bin_neq_dir : bin ≠ dir.
Proof. unfold bin, path_Join. by apply append_neq. Qed.

Lemma with_dir_bin (f : gmap string node) : with_dir f dir !! bin = f !! bin.
Proof.
  unfold with_dir. destruct (f !! dir); [done|].
  apply lookup_insert_ne. intros H. by apply bin_neq_dir.
Qed.

(** C3, as the code has it.  The candidate selected has a manifest of
    well-formed records
    whose first record for the archive carries another digest than the
    archive downloaded.  Then [install] prints "Checksum verification
    failed" and returns.  Nothing is extracted: the file system is the one
    before the run with the version's directory created and the archive
    removed from the cache, so that the binary of the version is as it
    was. *)
Theorem checksum_mismatch_aborts (w : World) (curl : url_URL) (body : list ascii)
    (records : list (list ascii * string)) (r : list ascii * string) :
  ChecksumURL t = Some curl →
  (fs w !! dir = None → denied w dir = false) →
  creatable (with_dir (fs w) dir) (denied w) archivePath →
  net w !! URL_String url = Some body →
  net w !! URL_String curl = Some (render_manifest records) →
  Forall well_formed records →
  List.find (λ r, String.eqb r.2 name) records = Some r →
  r.1 ≠ sha256_Sum body →
  ∃ w', install_version t w = (Return tt, w') ∧
        printed w w' = ["Checksum verification failed" +:+ nl] ∧
        fs w' = delete archivePath (with_dir (fs w) dir) ∧
        (bin ≠ archivePath → fs w' !! bin = fs w !! bin).
Proof.
  intros Hc Hdir Hcr Hbody Hman Hwf Hfind Hsum.
  destruct (install_version_download w body Hdir Hcr Hbody)
    as (w1 & -> & Hfs & Hden & Hnet & _ & _ & Hout & Hgets).
  unfold after_download.
  assert (net w1 !! URL_String curl = Some (render_manifest records)) as Hman1
    by (by rewrite Hnet).
  pose proof (verify_records curl records (sha256_Sum body) w1 Hc Hman1 Hwf) as Hv.
  rewrite Hfind in Hv. rewrite bool_decide_eq_false_2 in Hv by (intros E; by apply Hsum).
  rewrite (defer_bind_Return _ _ _ _ _ _ Hv), defer_mret.
  erewrite remove_archive_ok; [|cbn; rewrite Hfs; apply lookup_insert_eq].
  eexists. split; [reflexivity|]. cbn.
  assert (delete archivePath (fs w1) = delete archivePath (with_dir (fs w) dir)) as Hdel
    by (by rewrite Hfs, delete_insert_eq).
  repeat split.
  - unfold printed. cbn. by rewrite Hout, drop_app_length.
  - exact Hdel.
  - intros Hne. rewrite Hdel, lookup_delete_ne by done. apply with_dir_bin.
Qed.

(** C6.  The candidate selected has no manifest, or a manifest of
    well-formed records none of which is for the archive.  Then [install]
    prints "No checksum found" and goes on to open the archive and extract
    it; when the archive opens and holds the binary, [install] returns
    with the binary installed. *)
Theorem no_checksum_warns_and_proceeds (w : World) (body : list ascii) :
  (fs w !! dir = None → denied w dir = false) →
  creatable (with_dir (fs w) dir) (denied w) archivePath →
  net w !! URL_String url = Some body →
  (ChecksumURL t = None ∨
   ∃ curl records,
     ChecksumURL t = Some curl ∧
     net w !! URL_String curl = Some (render_manifest records) ∧
     Forall well_formed records ∧
     Forall (λ r, r.2 ≠ name) records) →
  ∃ w2,
    install_version t w
    = defer (remove_archive archivePath) (unpack t dir archivePath) w2 ∧
    printed w w2 = ["No checksum found" +:+ nl] ∧
    fs w2 = <[archivePath := File body (created_mode (with_dir (fs w) dir) archivePath)]>
              (with_dir (fs w) dir) ∧
    ∀ files c,
      zip_OpenReader body = Ok files → last_terraform files = Some c →
      creatable (with_dir (fs w) dir) (denied w) bin → bin ≠ archivePath →
      ∃ w', install_version t w = (Return tt, w') ∧
            printed w w' =
              ["No checksum found" +:+ nl;
               "Successfully installed Terraform version "
               +:+ Version_String (Version t) +:+ nl] ∧
            fs w' !! bin = Some (File c 493%N).
Proof.
  intros Hdir Hcr Hbody Hwarn.
  destruct (install_version_download w body Hdir Hcr Hbody)
    as (w1 & Hrun & Hfs & Hden & Hnet & _ & _ & Hout & Hgets).
  assert (∃ w2, verify t name (sha256_Sum body) w1 = (Return true, w2) ∧
                fs w2 = fs w1 ∧ denied w2 = denied w1 ∧
                out w2 = out w1 ++ ["No checksum found" +:+ nl]) as (w2 & Hv & Hfs2 & Hden2 & Hout2).
  { destruct Hwarn as [Hc|(curl & records & Hc & Hman & Hwf & Hnone)].
    - rewrite (verify_none _ _ Hc). by eexists.
    - assert (net w1 !! URL_String curl = Some (render_manifest records)) as Hman1
        by (by rewrite Hnet).
      rewrite (verify_records curl records _ w1 Hc Hman1 Hwf).
      assert (List.find (λ r, String.eqb r.2 name) records = None) as ->.
      { clear -Hnone. induction Hnone as [|r records Hr _ IH]; [done|]. simpl.
        by apply String.eqb_neq in Hr as ->. }
      by eexists. }
  assert (install_version t w
          = defer (remove_archive archivePath) (unpack t dir archivePath) w2) as Hrun2.
  { rewrite Hrun. unfold after_download.
    by rewrite (defer_bind_Return _ _ _ _ _ _ Hv). }
  exists w2. split; [exact Hrun2|]. split.
  { unfold printed. by rewrite Hout2, Hout, drop_app_length. }
  split; [by rewrite Hfs2|].
  intros files c Hzip Hlast Hbin Hne.
  rewrite Hrun2.
  assert (fs w2 !! archivePath
          = Some (File body (created_mode (with_dir (fs w) dir) archivePath))) as Harch
    by (rewrite Hfs2, Hfs; apply lookup_insert_eq).
  assert (creatable (fs w2) (denied w2) bin) as Hbin2.
  { rewrite Hfs2, Hfs, Hden2, Hden. unfold creatable.
    by rewrite lookup_insert_ne. }
  erewrite defer_Return; [|exact (unpack_ok w2 body _ files Harch Hzip Hbin2)].
  rewrite Hlast.
  erewrite remove_archive_ok;
    [|cbn; rewrite lookup_insert_ne by done; exact Harch].
  eexists. split; [reflexivity|]. cbn. split.
  - unfold printed. cbn. rewrite Hout2, Hout, <- app_assoc, drop_app_length. done.
  - rewrite lookup_delete_ne by done. apply lookup_insert_eq.
Qed.

(** C10.  The directory of the version and the binary in it are already
    there.  [install] still requests the archive and, once the archive is
    accepted and opened, replaces the binary by the one in the archive. *)
Theorem install_overwrites_installed (w : World) (body old c : list ascii) (m : N)
    (files : list (string * list ascii)) :
  fs w !! dir = Some Dir →
  fs w !! bin = Some (File old m) →
  creatable (fs w) (denied w) archivePath →
  bin ≠ archivePath →
  net w !! URL_String url = Some body →
  accepted t w name (sha256_Sum body) →
  zip_OpenReader body = Ok files →
  last_terraform files = Some c →
  ∃ w', install_version t w = (Return tt, w') ∧
        In (URL_String url) (drop (length (gets w)) (gets w')) ∧
        fs w' !! bin = Some (File c 493%N) ∧
        last (printed w w') =
          Some ("Successfully installed Terraform version "
                +:+ Version_String (Version t) +:+ nl).
Proof.
  intros Hd Hb Hcr Hne Hbody Hacc Hzip Hlast.
  assert (with_dir (fs w) dir = fs w) as Hwd by (unfold with_dir; by rewrite Hd).
  assert (fs w !! dir = None → denied w dir = false) as Hdir by (by rewrite Hd).
  rewrite <- Hwd in Hcr.
  destruct (install_version_download w body Hdir Hcr Hbody)
    as (w1 & -> & Hfs & Hden & Hnet & _ & _ & Hout & Hgets).
  rewrite Hwd in Hfs.
  assert (accepted t w1 name (sha256_Sum body)) as Hacc1.
  { unfold accepted in *. destruct (ChecksumURL t); [|done]. by rewrite Hnet. }
  destruct (verify_accepted _ _ Hacc1) as (w2 & Hv & Hfs2 & Hden2 & [d Hout2] & [g Hgets2]).
  unfold after_download. rewrite (defer_bind_Return _ _ _ _ _ _ Hv).
  assert (fs w2 !! archivePath = Some (File body (created_mode (fs w) archivePath))) as Harch
    by (rewrite Hfs2, Hfs; apply lookup_insert_eq).
  assert (creatable (fs w2) (denied w2) bin) as Hbin2.
  { rewrite Hfs2, Hfs. unfold creatable. rewrite lookup_insert_ne, Hb by done. done. }
  erewrite defer_Return; [|exact (unpack_ok w2 body _ files Harch Hzip Hbin2)].
  rewrite Hlast.
  erewrite remove_archive_ok;
    [|cbn; rewrite lookup_insert_ne by done; exact Harch].
  eexists. split; [reflexivity|]. cbn. repeat split.
  - rewrite Hgets2, Hgets, <- app_assoc, drop_app_length. by left.
  - rewrite lookup_delete_ne by done. apply lookup_insert_eq.
  - unfold printed. cbn. rewrite Hout2, Hout, <- app_assoc, drop_app_length.
    apply last_snoc.
Qed.

End Candidate.

(* ===================================================================== *)
(** ** [install] and [exec] from the top *)

Lemma getConstraints_world (w : World) : (getConstraints w).2 = w.
Proof.
  unfold getConstraints. destruct (config w) as [rv|]; [|by destruct (nil_block w)].
  destruct (String.eqb rv ""); [done|]. by destruct (version_NewConstraint rv).
Qed.

(** [install] is the loop over the sorted catalog under the constraint of
    the configuration. *)
Lemma install_run (w : World) (l : list tfVersion) (cs : list version_Constraint) :
  catalog w = Some l →
  getConstraints (scrape_gets w) = (Return cs, scrape_gets w) →
  install w = install_loop cs (sortDsc l) (scrape_gets w).
Proof.
  intros Hcat Hcs. unfold install.
  erewrite bind_Return; [|unfold get; rewrite Hcat; reflexivity].
  cbv zeta. by erewrite bind_Return; [|exact Hcs].
Qed.

(** [install] on a catalog in which [t] is selected. *)
Lemma install_selected (w : World) (l : list tfVersion) (cs : list version_Constraint)
    (t : tfVersion) :
  catalog w = Some l →
  getConstraints (scrape_gets w) = (Return cs, scrape_gets w) →
  select cs l = Some t →
  install w = install_version t (scrape_gets w).
Proof.
  intros Hcat Hcs Hsel. rewrite (install_run w l cs Hcat Hcs), install_loop_find.
  fold (select cs l). by rewrite Hsel.
Qed.

Lemma parse_entries_installed (names : list string) (w : World) :
  parse_entries names w =
  match installed names with
  | Ok tfVersions => (Return tfVersions, w)
  | Err => (Stop Fatal, w)
  end.
Proof.
  induction names as [|name names IH]; simpl; [done|].
  destruct (version_NewVersion name) as [v|]; [|done].
  unfold mbind, M_bind. rewrite IH. by destruct (installed names).
Qed.

Lemma installed_Err (names : list string) (name : string) :
  In name names → version_NewVersion name = Err → installed names = Err.
Proof.
  induction names as [|n names IH]; simpl; [done|].
  intros [->|Hin] Hv.
  - by rewrite Hv.
  - rewrite (IH Hin Hv). by destruct (version_NewVersion n).
Qed.

Lemma os_Readdir_entries (w : World) :
  fs w !! tfVersionsDirPath = Some Dir →
  os_Readdir tfVersionsDirPath w = (Return (Ok (entries w)), w).
Proof. intros H. unfold os_Readdir. by rewrite H. Qed.

Lemma append_cons (x : ascii) (a b : string) : String x a +:+ b = String x (a +:+ b).
Proof. done. Qed.

Lemma strip_prefix_append (a x : string) : strip_prefix a (a +:+ x) = Some x.
Proof.
  induction a as [|c a IH]; [done|].
  rewrite append_cons. simpl. by rewrite Ascii.eqb_refl.
Qed.

Lemma append_assoc (a b c : string) : (a +:+ b) +:+ c = a +:+ (b +:+ c).
Proof. induction a as [|x a IH]; [done|]. by rewrite !append_cons, IH. Qed.

(** An entry directly under the install root is listed by [Readdir]. *)
Lemma entries_In (w : World) (name : string) (nd : node) :
  fs w !! path_Join tfVersionsDirPath name = Some nd →
  name ≠ "" →
  existsb is_slash (list_ascii_of_string name) = false →
  In name (entries w).
Proof.
  intros Hfs Hne Hsl. apply list_elem_of_In. unfold entries.
  apply list_elem_of_omap. exists (path_Join tfVersionsDirPath name, nd). split.
  - by apply elem_of_map_to_list.
  - cbn [fst]. unfold entry_name, path_Join.
    rewrite <- append_assoc, strip_prefix_append.
    apply String.eqb_neq in Hne. by rewrite Hne, Hsl.
Qed.

(** C7.  An entry of the install root whose name does not parse as a
    version ends [exec] in [log.Fatal], whatever else is in the root:
    nothing is printed, no version is tried and nothing is executed. *)
Theorem exec_unparsable_entry_fatal (args : list string) (w : World) (name : string) (nd : node) :
  fs w !! tfVersionsDirPath = Some Dir →
  fs w !! path_Join tfVersionsDirPath name = Some nd →
  name ≠ "" →
  existsb is_slash (list_ascii_of_string name) = false →
  version_NewVersion name = Err →
  In name (entries w) ∧
  parse_entries (entries w) w = (Stop Fatal, w) ∧
  exec args w = (Stop Fatal, w).
Proof.
  intros Hroot Hent Hne Hsl Hv.
  pose proof (entries_In w name nd Hent Hne Hsl) as Hin.
  assert (parse_entries (entries w) w = (Stop Fatal, w)) as Hp.
  { by rewrite parse_entries_installed, (installed_Err _ _ Hin Hv). }
  repeat split; [done|done|].
  unfold exec.
  erewrite bind_Return; [|apply orFatal_Ok, os_Readdir_entries; exact Hroot].
  by erewrite bind_Stop; [|exact Hp].
Qed.

Lemma exec_loop_skip (args : list string) (cs : list version_Constraint)
    (l1 l2 : list tfVersion) (w : World) :
  Forall (λ c, Constraints_Check cs (Version c) = false) l1 →
  exec_loop args cs (l1 ++ l2) w = exec_loop args cs l2 w.
Proof.
  induction 1 as [|c l1 Hc _ IH]; simpl; [done|]. by rewrite Hc.
Qed.



(** C9.  Under a name other than [terraform] and with a first argument
    that is none of [list], [install] and [exec], [main] returns at once:
    the world is as it was (nothing printed, no request sent, the file
    system untouched) and the process ends with status 0. *)
Theorem main_unknown_subcommand (arg0 arg1 : string) (rest : list string) (w : World) :
  path_Base arg0 ≠ "terraform" →
  arg1 ≠ "list" → arg1 ≠ "install" → arg1 ≠ "exec" →
  main (arg0 :: arg1 :: rest) w = (Return tt, w) ∧
  exit_status (main (arg0 :: arg1 :: rest) w).1 = Some 0%Z.
Proof.
  intros H0 H1 H2 H3. unfold main.
  apply String.eqb_neq in H0, H1, H2, H3. rewrite H0. cbn [length Nat.leb].
  by rewrite H1, H2, H3.
Qed.

(* ===================================================================== *)
(** ** What a run leaves alone, and how it ends

    The steps of the program against a relation [R] between the world
    before and the world after, and a set [St] of ways to stop.  Every
    lemma asks of [R] and [St] what the step needs: that [R] holds across
    a line printed, a request sent, an entry written at the path the step
    writes to. *)

Section Within.

Variable R : World → World → Prop.
Variable St : stop → Prop.
Hypothesis R_refl : ∀ w, R w w.
Hypothesis R_trans : ∀ a b c, R a b → R b c → R a c.
Hypothesis R_out : ∀ w s, R w (add_out s w).
Hypothesis St_Fatal : St Fatal.

Ltac here := split; [try apply R_refl | first [done | by intros ? [= <-]]].

Lemma within_mret {A} (a : A) : within R St (mret a : M A).
Proof. intros w. here. Qed.

Lemma within_halt {A} (s : stop) : St s → within R St (halt s : M A).
Proof. intros Hs w. here. Qed.

Lemma within_bind {A B} (m : M A) (k : A → M B) :
  within R St m → (∀ a, within R St (k a)) → within R St (m ≫= k).
Proof.
  intros Hm Hk w. unfold mbind, M_bind. destruct (Hm w) as [HR HS].
  destruct (m w) as [[a|s] w1]; cbn in *.
  - destruct (Hk a w1) as [HR' HS']. split; [by eapply R_trans | done].
  - split; [done|]. intros s' [= <-]. by apply HS.
Qed.

Lemma within_defer {A} (d : M unit) (m : M A) :
  (∀ w, R w (d w).2) → within R St m → within R St (defer d m).
Proof.
  intros Hd Hm w. unfold defer. destruct (Hm w) as [HR HS].
  destruct (m w) as [[a|s] w1]; cbn in *; [|by split].
  split; [|done]. eapply R_trans; [exact HR | apply Hd].
Qed.

Lemma within_orFatal {A} (m : M (result A)) : within R St m → within R St (orFatal m).
Proof.
  intros Hm. unfold orFatal. apply within_bind; [done|].
  intros [a|]; [apply within_mret | by apply within_halt].
Qed.

Lemma within_Printf (s : string) : within R St (Printf s).
Proof. intros w. split; [apply R_out | done]. Qed.

Lemma within_http_Get (u : string) :
  (∀ w, R w (add_get u w)) → within R St (http_Get u).
Proof.
  intros Hu w. unfold http_Get. destruct (net w !! u); (split; [apply Hu | done]).
Qed.

Lemma within_os_IsNotExist (p : string) : within R St (os_IsNotExist p).
Proof. intros w. here. Qed.

Lemma within_read_file (p : string) : within R St (read_file p).
Proof. intros w. unfold read_file. destruct (fs w !! p) as [[|c m]|]; here. Qed.

Lemma within_os_Readdir (p : string) : within R St (os_Readdir p).
Proof. intros w. unfold os_Readdir. destruct (fs w !! p) as [[|c m]|]; here. Qed.

Lemma within_os_Mkdir (p : string) :
  (∀ w x, R w (set_fs <[p := x]> w)) → within R St (os_Mkdir p).
Proof.
  intros Hp w. unfold os_Mkdir. destruct (fs w !! p); [here|].
  destruct (denied w p); [here|]. split; [apply Hp | done].
Qed.

Lemma within_os_Create (p : string) :
  (∀ w x, R w (set_fs <[p := x]> w)) → within R St (os_Create p).
Proof.
  intros Hp w. unfold os_Create. destruct (fs w !! p) as [[|c m]|].
  - here.
  - split; [apply Hp | done].
  - destruct (denied w p); [here|]. split; [apply Hp | done].
Qed.

Lemma within_write_file (p : string) (data : list ascii) :
  (∀ w x, R w (set_fs <[p := x]> w)) → within R St (write_file p data).
Proof.
  intros Hp w. unfold write_file. destruct (fs w !! p) as [[|c m]|]; [here| |here].
  split; [apply Hp | done].
Qed.

Lemma within_File_Chmod (p : string) (m : N) :
  (∀ w x, R w (set_fs <[p := x]> w)) → within R St (File_Chmod p m).
Proof.
  intros Hp w. unfold File_Chmod. destruct (fs w !! p) as [[|c m']|]; [here| |here].
  split; [apply Hp | done].
Qed.

Lemma within_remove_archive (p : string) :
  (∀ w, R w (set_fs (delete p) w)) → within R St (remove_archive p).
Proof.
  intros Hp. unfold remove_archive. apply within_bind.
  - intros w. unfold os_Remove. destruct (fs w !! p); [|here].
    split; [apply Hp | done].
  - intros [|]; [apply within_mret | apply within_Printf].
Qed.

Lemma within_getConstraints : St Panic → within R St getConstraints.
Proof.
  intros HP w. unfold getConstraints.
  destruct (config w) as [rv|]; [|destruct (nil_block w); here].
  destruct (String.eqb rv ""); [here|]. destruct (version_NewConstraint rv); here.
Qed.

Lemma within_get : (∀ w, R w (scrape_gets w)) → within R St get.
Proof.
  intros Hu w. unfold get.
  destruct (catalog w); (split; [apply Hu | first [done | by intros ? [= <-]]]).
Qed.

Lemma within_parse_entries (names : list string) : within R St (parse_entries names).
Proof.
  intros w. rewrite parse_entries_installed. destruct (installed names); here.
Qed.

Lemma within_syscall_Exec (bin : string) (argv : list string) :
  St (Replaced bin argv) → within R St (syscall_Exec bin argv).
Proof.
  intros Hx w. unfold syscall_Exec. destruct (fs w !! bin) as [[|c m]|]; [here| |here].
  destruct (N.land m 73 =? 0)%N; [here|]. split; [apply R_refl | by intros ? [= <-]].
Qed.

(** The loop over the manifest; the fuel is not used up. *)
Lemma within_scan_manifest (fuel : nat) (name : string) (sum body : list ascii) :
  length body < fuel → within R St (scan_manifest fuel name sum body).
Proof.
  revert body. induction fuel as [|fuel IH]; intros body Hlen; [lia|].
  simpl. pose proof (Fscanf_two body) as H2. pose proof (Fscanf_progress body) as Hp.
  destruct (Fscanf body) as [r body']. cbn [fst snd] in *.
  destruct (err r) as [[]|].
  - apply within_bind; [apply within_Printf | intros; apply within_mret].
  - by apply within_halt.
  - by apply within_halt.
  - rewrite (H2 eq_refl). simpl.
    destruct (String.eqb (filename r) name).
    + destruct (negb _); [|apply within_mret].
      apply within_bind; [apply within_Printf | intros; apply within_mret].
    + apply IH. specialize (Hp eq_refl). lia.
Qed.

Lemma within_verify (t : tfVersion) (name : string) (sum : list ascii) :
  (∀ curl, ChecksumURL t = Some curl → ∀ w, R w (add_get (URL_String curl) w)) →
  within R St (verify t name sum).
Proof.
  intros Hu. unfold verify. destruct (ChecksumURL t) as [c|].
  - apply within_bind; [by apply within_orFatal, within_http_Get, Hu|]. intros manifest.
    apply within_scan_manifest. lia.
  - apply within_bind; [apply within_Printf | intros; apply within_mret].
Qed.

Lemma within_extract (dir : string) (files : list (string * list ascii)) :
  (∀ w x, R w (set_fs <[path_Join dir "terraform" := x]> w)) →
  within R St (extract dir files).
Proof.
  intros Hbin. induction files as [|file files IH]; simpl; [apply within_mret|].
  apply within_bind; [|intros; exact IH].
  unfold extract_entry. destruct (String.eqb file.1 "terraform") eqn:Hn; [|apply within_mret].
  apply String.eqb_eq in Hn. rewrite Hn.
  change (path_Base "terraform") with "terraform".
  apply within_bind; [by apply within_orFatal, within_os_Create|]. intros _.
  apply within_bind; [by apply within_write_file|]. intros _.
  by apply within_orFatal, within_File_Chmod.
Qed.

Lemma within_unpack (t : tfVersion) (dir archivePath : string) :
  (∀ w x, R w (set_fs <[path_Join dir "terraform" := x]> w)) →
  within R St (unpack t dir archivePath).
Proof.
  intros Hbin. unfold unpack.
  apply within_bind; [apply within_orFatal, within_read_file|]. intros content.
  apply within_bind; [apply within_orFatal, within_mret|]. intros archive.
  apply within_bind; [by apply within_extract|]. intros _.
  apply within_Printf.
Qed.

(** What [install] does between the creation of the archive file and its
    deferred removal. *)
Lemma within_download (t : tfVersion) (url : url_URL) (dir archivePath : string) :
  (∀ w x, R w (set_fs <[archivePath := x]> w)) →
  (∀ w x, R w (set_fs <[path_Join dir "terraform" := x]> w)) →
  (∀ w, R w (add_get (URL_String url) w)) →
  (∀ curl, ChecksumURL t = Some curl → ∀ w, R w (add_get (URL_String curl) w)) →
  within R St
    (body ← orFatal (http_Get (URL_String url));
     write_file archivePath body;;
     proceed ← verify t (path_Base (Path url)) (sha256_Sum body);
     if (proceed : bool) then unpack t dir archivePath else mret tt).
Proof.
  intros Hap Hbin Hu Hc.
  apply within_bind; [by apply within_orFatal, within_http_Get|]. intros body.
  apply within_bind; [by apply within_write_file|]. intros _.
  apply within_bind; [by apply within_verify|].
  intros [|]; [by apply within_unpack | apply within_mret].
Qed.

Lemma within_install_version (t : tfVersion) :
  let dir := path_Join tfVersionsDirPath (Version_String (Version t)) in
  (∀ w x, R w (set_fs <[dir := x]> w)) →
  (∀ w x, R w (set_fs <[path_Join dir "terraform" := x]> w)) →
  (∀ url, URL t = Some url →
     let archivePath := path_Join cacheDirPath (path_Base (Path url)) in
     (∀ w x, R w (set_fs <[archivePath := x]> w)) ∧
     (∀ w, R w (set_fs (delete archivePath) w)) ∧
     (∀ w, R w (add_get (URL_String url) w))) →
  (∀ curl, ChecksumURL t = Some curl → ∀ w, R w (add_get (URL_String curl) w)) →
  (URL t = None → St Panic) →
  within R St (install_version t).
Proof.
  intros dir Hdir Hbin Hap Hc Hnil. unfold install_version. fold dir.
  apply within_bind; [apply within_os_IsNotExist|]. intros missing.
  apply within_bind.
  { destruct missing; [by apply within_orFatal, within_os_Mkdir | apply within_mret]. }
  intros _. destruct (URL t) as [url|]; [|by apply within_halt, Hnil].
  destruct (Hap url eq_refl) as (Hw & Hd & Hu).
  apply within_bind; [by apply within_orFatal, within_os_Create|]. intros _.
  apply within_defer.
  - intros w. by apply within_remove_archive.
  - by apply within_download.
Qed.

Lemma within_install_loop (cs : list version_Constraint) (l : list tfVersion) :
  (∀ t, In t l → within R St (install_version t)) →
  within R St (install_loop cs l).
Proof.
  intros Hl. rewrite install_loop_find.
  destruct (List.find _ l) as [t|] eqn:Hf; [|apply within_Printf].
  apply Hl. by apply List.find_some in Hf as [Hin _].
Qed.

Lemma within_exec_loop (args : list string) (cs : list version_Constraint)
    (l : list tfVersion) :
  (∀ bin, St (Replaced bin ("terraform" :: args))) →
  within R St (exec_loop args cs l).
Proof.
  intros Hx. induction l as [|t l IH]; simpl; [apply within_mret|].
  destruct (Constraints_Check cs (Version t)); [|exact IH].
  apply within_bind; [apply within_os_IsNotExist|].
  intros [|]; [apply within_Printf|].
  apply within_bind; [|intros; exact IH].
  apply within_orFatal, within_syscall_Exec, Hx.
Qed.

Lemma within_exec (args : list string) :
  (∀ bin, St (Replaced bin ("terraform" :: args))) →
  St Panic →
  within R St (exec args).
Proof.
  intros Hx HP. unfold exec.
  apply within_bind; [apply within_orFatal, within_os_Readdir|]. intros names.
  apply within_bind; [apply within_parse_entries|]. intros tfVersions.
  apply within_bind; [by apply within_getConstraints|]. intros constraints.
  apply within_bind; [by apply within_exec_loop|]. intros _.
  apply within_Printf.
Qed.

Lemma within_list_ : (∀ w, R w (scrape_gets w)) → within R St list_.
Proof.
  intros Hu. unfold list_. apply within_bind; [by apply within_get|]. intros tfVersions.
  induction (sortAsc tfVersions) as [|t l IH]; simpl; [apply within_mret|].
  apply within_bind; [apply within_Printf | intros; exact IH].
Qed.

Lemma within_ensure_dir (p : string) :
  (∀ w x, R w (set_fs <[p := x]> w)) → within R St (ensure_dir p).
Proof.
  intros Hp. unfold ensure_dir.
  apply within_bind; [apply within_os_IsNotExist|].
  intros [|]; [by apply within_orFatal, within_os_Mkdir | apply within_mret].
Qed.

End Within.

(* ===================================================================== *)
(** ** [list] *)

Lemma list_loop_prints (l : list tfVersion) (w : World) :
  list_loop l w =
  (Return tt,
   {| fs := fs w; denied := denied w; net := net w; catalog := catalog w;
      config := config w;
      out := out w ++ map (λ t, Version_String (Version t) +:+ nl) l;
      gets := gets w;
      nil_block := nil_block w; release_pages := release_pages w |}).
Proof.
  revert w. induction l as [|t l IH]; intros w; simpl.
  - rewrite app_nil_r. by destruct w.
  - rewrite (bind_Return (Printf _) _ w (add_out _ w) tt eq_refl), IH. cbn.
    by rewrite <- app_assoc.
Qed.

(** X1.  [list] prints the version of every candidate of the catalog, one
    per line and nothing else, in an order in which no version is lower
    than the one before it: candidates are neither filtered by the
    constraint nor merged when their versions are equal.  The requests it
    sends are those of the scrape, for the index of the site and then for
    the pages of the releases, and it leaves the file system alone. *)
Theorem list_prints_ascending (w : World) (l : list tfVersion) :
  catalog w = Some l →
  ∃ w', list_ w = (Return tt, w') ∧
        printed w w' = map (λ t, Version_String (Version t) +:+ nl) (sortAsc l) ∧
        Permutation l (sortAsc l) ∧
        StronglySorted (λ x y, Compare (Version x) (Version y) ≠ Gt) (sortAsc l) ∧
        fs w' = fs w ∧ gets w' = gets w ++ baseURL :: release_pages w.
Proof.
  intros Hcat. unfold list_.
  erewrite bind_Return; [|unfold get; rewrite Hcat; reflexivity].
  rewrite list_loop_prints. eexists. split; [reflexivity|]. cbn.
  repeat split.
  - unfold printed. cbn. by rewrite drop_app_length.
  - apply sortAsc_Permutation.
  - apply sortAsc_sorted.
Qed.

(* ===================================================================== *)
(** ** What [exec] and [install] leave alone *)

(** How [getConstraints] ends when it does not return: in [log.Fatal],
    or in the panic of the nil dereference when the configuration has no
    [terraform] block. *)
Lemma getConstraints_Stop (w : World) (s : stop) :
  (getConstraints w).1 = Stop s →
  s = Fatal ∨ (s = Panic ∧ config w = None ∧ nil_block w = true).
Proof.
  unfold getConstraints. destruct (config w) as [rv|].
  - destruct (String.eqb rv ""); [done|].
    destruct (version_NewConstraint rv); [done|]. intros [= <-]. by left.
  - destruct (nil_block w); intros [= <-]; [by right | by left].
Qed.

(** X2.  [exec] only reads.  However it ends, the file system is as it
    was and no request was sent; and it ends by returning, in
    [log.Fatal], by handing the process over to a binary with [terraform]
    and its own arguments as argument vector, or, when the configuration
    has no [terraform] block, in the panic of [getConstraints] at the
    dereference of line 293. *)
Theorem exec_reads_only (args : list string) (w : World) :
  fs (exec args w).2 = fs w ∧
  gets (exec args w).2 = gets w ∧
  ((exec args w).1 = Return tt ∨
   (exec args w).1 = Stop Fatal ∨
   (∃ bin, (exec args w).1 = Stop (Replaced bin ("terraform" :: args))) ∨
   ((exec args w).1 = Stop Panic ∧ config w = None ∧ nil_block w = true)).
Proof.
  assert (within (λ w w', fs w' = fs w ∧ gets w' = gets w) (λ _, True) (exec args)) as H.
  { apply within_exec; try done. intros a b c [H1 H2] [H3 H4]. split; congruence. }
  destruct (H w) as [[Hfs Hgets] _]. split; [done|]. split; [done|].
  assert (∀ cs l s, (exec_loop args cs l w).1 = Stop s →
                    s = Fatal ∨ ∃ bin, s = Replaced bin ("terraform" :: args)) as Hloop.
  { intros cs l s Hs.
    apply (within_exec_loop (λ _ _, True)
             (λ s, s = Fatal ∨ ∃ bin, s = Replaced bin ("terraform" :: args))
             (λ _, I) (λ _ _ _ _ _, I) (λ _ _, I) (or_introl eq_refl) args cs l
             (λ bin, or_intror (ex_intro _ bin eq_refl)) w).
    exact Hs. }
  unfold exec.
  destruct (fs w !! tfVersionsDirPath) as [[|c m]|] eqn:Hroot;
    [|right; left; by erewrite bind_Stop;
        [|apply orFatal_Err; unfold os_Readdir; rewrite Hroot; reflexivity]..].
  erewrite bind_Return; [|apply orFatal_Ok, os_Readdir_entries; exact Hroot].
  destruct (installed (entries w)) as [l|] eqn:Hinst;
    [|right; left;
      by erewrite bind_Stop; [|rewrite parse_entries_installed, Hinst; reflexivity]].
  erewrite bind_Return; [|rewrite parse_entries_installed, Hinst; reflexivity].
  cbv zeta. pose proof (getConstraints_world w) as Hw.
  pose proof (getConstraints_Stop w) as Hstop.
  destruct (getConstraints w) as [[cs|s] w1] eqn:Hg; cbn in Hw, Hstop; subst w1.
  - rewrite (bind_Return _ _ _ _ _ Hg).
    specialize (Hloop cs (sortDsc l)).
    destruct (exec_loop args cs (sortDsc l) w) as [[[]|s] w2] eqn:Hl; cbn in Hloop.
    + left. by rewrite (bind_Return _ _ _ _ _ Hl).
    + rewrite (bind_Stop _ _ _ _ _ Hl). cbn.
      destruct (Hloop s eq_refl) as [->|[bin ->]];
        [right; left | right; right; left; exists bin]; done.
  - rewrite (bind_Stop _ _ _ _ _ Hg). cbn.
    destruct (Hstop s eq_refl) as [->|(-> & Hc & Hn)]; [by right; left|].
    by right; right; right.
Qed.

(** X3.  The paths [install] writes to for the candidate it selected are
    the directory of the version, the binary in it and the archive in the
    cache.  However the run ends, every other path of the file system
    holds what it held. *)
Theorem install_version_frame (t : tfVersion) (w : World) (p : string) :
  let dir := path_Join tfVersionsDirPath (Version_String (Version t)) in
  p ≠ dir →
  p ≠ path_Join dir "terraform" →
  (∀ url, URL t = Some url → p ≠ path_Join cacheDirPath (path_Base (Path url))) →
  fs (install_version t w).2 !! p = fs w !! p.
Proof.
  intros dir Hdir Hbin Hap.
  assert (within (λ w w', fs w' !! p = fs w !! p) (λ _, True) (install_version t)) as H.
  { apply within_install_version; try done.
    - intros a b c H1 H2. congruence.
    - intros w0 x. cbn. by rewrite lookup_insert_ne.
    - intros w0 x. cbn. by rewrite lookup_insert_ne.
    - intros url Hurl. specialize (Hap url Hurl). repeat split; intros w0; cbn.
      + intros x. by rewrite lookup_insert_ne.
      + by rewrite lookup_delete_ne. }
  apply H.
Qed.

(** X4.  However the installation of a candidate ends, the requests it
    sent went to the location of the archive or to that of the manifest,
    and nowhere else: the location of the signature of the manifest is
    never requested, so the signature is never checked. *)
Theorem install_version_requests (t : tfVersion) (w : World) :
  ∃ g, gets (install_version t w).2 = gets w ++ g ∧
       Forall (λ u, (∃ url, URL t = Some url ∧ u = URL_String url) ∨
                    (∃ curl, ChecksumURL t = Some curl ∧ u = URL_String curl)) g.
Proof.
  set (P := λ u, (∃ url, URL t = Some url ∧ u = URL_String url) ∨
                 (∃ curl, ChecksumURL t = Some curl ∧ u = URL_String curl)).
  assert (within (λ w w', ∃ g, gets w' = gets w ++ g ∧ Forall P g) (λ _, True)
            (install_version t)) as H.
  { apply within_install_version; try done.
    - intros w0. exists []. by rewrite app_nil_r.
    - intros a b c (g1 & E1 & F1) (g2 & E2 & F2). exists (g1 ++ g2).
      rewrite E2, E1, <- app_assoc. split; [done | by apply Forall_app].
    - intros w0 s. exists []. by rewrite app_nil_r.
    - intros w0 x. exists []. by rewrite app_nil_r.
    - intros w0 x. exists []. by rewrite app_nil_r.
    - intros url Hurl. repeat split; intros w0.
      + intros x. exists []. by rewrite app_nil_r.
      + exists []. by rewrite app_nil_r.
      + exists [URL_String url]. split; [done|]. constructor; [|done].
        left. by exists url.
    - intros curl Hc w0. exists [URL_String curl]. split; [done|].
      constructor; [|done]. right. by exists curl. }
  apply H.
Qed.

(** X5.  Whatever the manifest holds, [install] does not print "Bad
    format": a call of [Fscanf] that stores fewer than two operands
    returns an error, on which the loop ends, so the branch that prints
    the line is never taken. *)
Theorem install_never_prints_bad_format (w : World) :
  Forall (λ s, s ≠ "Bad format" +:+ nl) (printed w (install w).2).
Proof.
  apply printed_emits. unfold install.
  apply emits_bind.
  { apply emits_silent. intros w0. unfold get. by destruct (catalog w0). }
  intros tfVersions. apply emits_bind.
  { apply emits_silent. intros w0. by rewrite getConstraints_world. }
  intros constraints. rewrite install_loop_find.
  destruct (List.find _ _) as [t|].
  - apply install_version_never_bad_format.
  - apply emits_Printf. simpl. discriminate.
Qed.

(* ===================================================================== *)
(** ** The archive in the cache *)

Lemma bind_Return_inv {A B} (m : M A) (k : A → M B) (w w' : World) (b : B) :
  (m ≫= k) w = (Return b, w') →
  ∃ a w1, m w = (Return a, w1) ∧ k a w1 = (Return b, w').
Proof.
  unfold mbind, M_bind. destruct (m w) as [[a|s] w1]; [|done].
  intros H. by exists a, w1.
Qed.

Lemma defer_Return_inv {A} (d : M unit) (m : M A) (w w' : World) (a : A) :
  defer d m w = (Return a, w') → ∃ w1, m w = (Return a, w1) ∧ w' = (d w1).2.
Proof.
  unfold defer. destruct (m w) as [[a'|s] w1]; [|done].
  intros [= -> <-]. by exists w1.
Qed.

Lemma remove_archive_gone (p : string) (w : World) :
  fs (remove_archive p w).2 !! p = None.
Proof.
  unfold remove_archive, mbind, M_bind, os_Remove.
  destruct (fs w !! p) eqn:Hp; cbn; [apply lookup_delete_eq | done].
Qed.

(** X6.  When [install] returns from the installation of a candidate,
    whether the binary was installed or the checksum was refused, the
    archive it downloaded is no longer in the cache. *)
Theorem install_removes_archive (t : tfVersion) (url : url_URL) (w : World) :
  URL t = Some url →
  (install_version t w).1 = Return tt →
  fs (install_version t w).2 !! path_Join cacheDirPath (path_Base (Path url)) = None.
Proof.
  intros Hurl Hret. destruct (install_version t w) as [o w'] eqn:Hrun.
  cbn in *. subst o. unfold install_version in Hrun. rewrite Hurl in Hrun.
  apply bind_Return_inv in Hrun as (missing & w1 & _ & Hrun).
  apply bind_Return_inv in Hrun as ([] & w2 & _ & Hrun).
  apply bind_Return_inv in Hrun as ([] & w3 & _ & Hrun).
  apply defer_Return_inv in Hrun as (w4 & _ & ->).
  apply remove_archive_gone.
Qed.

(** The program hands the process over to the binary of a version that
    satisfies the constraint when the binary can be executed. *)
Lemma exec_loop_runs (args : list string) (cs : list version_Constraint)
    (t : tfVersion) (l : list tfVersion) (w : World) (c : list ascii) (m : N) :
  Constraints_Check cs (Version t) = true →
  fs w !! binary_of t = Some (File c m) →
  N.land m 73 ≠ 0%N →
  exec_loop args cs (t :: l) w = (Stop (Replaced (binary_of t) ("terraform" :: args)), w).
Proof.
  intros Hc Hbin Hx. cbn [exec_loop]. rewrite Hc. fold (binary_of t).
  erewrite bind_Return;
    [|unfold os_IsNotExist; rewrite bool_decide_eq_false_2 by (by rewrite Hbin); reflexivity].
  cbn iota. erewrite bind_Stop; [reflexivity|].
  unfold orFatal. erewrite bind_Stop; [reflexivity|].
  unfold syscall_Exec. rewrite Hbin.
  by apply N.eqb_neq in Hx as ->.
Qed.

(** What the program does when [syscall.Exec] fails on the binary. *)
Lemma exec_loop_fails (args : list string) (cs : list version_Constraint)
    (t : tfVersion) (l : list tfVersion) (w : World) (nd : node) :
  Constraints_Check cs (Version t) = true →
  fs w !! binary_of t = Some nd →
  (∀ c m, nd = File c m → N.land m 73 = 0%N) →
  exec_loop args cs (t :: l) w = (Stop Fatal, w).
Proof.
  intros Hc Hbin Hx. cbn [exec_loop]. rewrite Hc. fold (binary_of t).
  erewrite bind_Return;
    [|unfold os_IsNotExist; rewrite bool_decide_eq_false_2 by (by rewrite Hbin); reflexivity].
  cbn iota. erewrite bind_Stop; [reflexivity|].
  apply orFatal_Err. unfold syscall_Exec. rewrite Hbin.
  destruct nd as [|c m]; [done|]. by rewrite (Hx c m eq_refl).
Qed.

Section Installation.

Variable t : tfVersion.
Variable url : url_URL.
Hypothesis t_URL : URL t = Some url.

Let dir : string := path_Join tfVersionsDirPath (Version_String (Version t)).
Let name : string := path_Base (Path url).
Let archivePath : string := path_Join cacheDirPath name.
Let bin : string := path_Join dir "terraform".

(** The run of [install_version] that goes through: the archive is
    downloaded, accepted, opened and extracted, and removed from the
    cache. *)
Lemma install_version_unpacked (w : World) (body : list ascii)
    (files : list (string * list ascii)) :
  (fs w !! dir = None → denied w dir = false) →
  creatable (with_dir (fs w) dir) (denied w) archivePath →
  creatable (with_dir (fs w) dir) (denied w) bin →
  bin ≠ archivePath →
  net w !! URL_String url = Some body →
  accepted t w name (sha256_Sum body) →
  zip_OpenReader body = Ok files →
  ∃ w', install_version t w = (Return tt, w') ∧
        fs w' = delete archivePath
                  match last_terraform files with
                  | Some c => <[bin := File c 493%N]> (with_dir (fs w) dir)
                  | None => with_dir (fs w) dir
                  end ∧
        last (printed w w') =
          Some ("Successfully installed Terraform version "
                +:+ Version_String (Version t) +:+ nl).
Proof.
  intros Hdir Hcr Hbin Hne Hbody Hacc Hzip.
  destruct (install_version_download t url t_URL w body Hdir Hcr Hbody)
    as (w1 & -> & Hfs & Hden & Hnet & _ & _ & Hout & Hgets).
  cbv beta.
  assert (accepted t w1 name (sha256_Sum body)) as Hacc1.
  { unfold accepted in *. destruct (ChecksumURL t); [|done]. by rewrite Hnet. }
  destruct (verify_accepted t url _ _ Hacc1)
    as (w2 & Hv & Hfs2 & Hden2 & [d Hout2] & [g Hgets2]).
  rewrite (defer_bind_Return _ _ _ _ _ _ Hv).
  assert (fs w2 !! archivePath
          = Some (File body (created_mode (with_dir (fs w) dir) archivePath))) as Harch
    by (rewrite Hfs2, Hfs; apply lookup_insert_eq).
  assert (creatable (fs w2) (denied w2) bin) as Hbin2.
  { rewrite Hfs2, Hfs, Hden2, Hden. unfold creatable. by rewrite lookup_insert_ne. }
  erewrite defer_Return; [|exact (unpack_ok t url w2 body _ files Harch Hzip Hbin2)].
  erewrite (remove_archive_ok url);
    [|cbn; destruct (last_terraform files);
      [rewrite lookup_insert_ne by done|]; exact Harch].
  eexists. split; [reflexivity|]. cbn. split.
  - rewrite Hfs2, Hfs. destruct (last_terraform files).
    + rewrite (insert_insert_ne _ bin archivePath) by done. by rewrite delete_insert_eq.
    + by rewrite delete_insert_eq.
  - unfold printed. cbn. rewrite Hout2, Hout, <- app_assoc, drop_app_length.
    apply last_snoc.
Qed.

(** X7.  A first installation: nothing is at the directory of the
    version, at the binary or at the archive in the cache, the archive is
    accepted and holds an entry named [terraform].  [install] returns, and
    the file system it leaves is the one it found with the directory of
    the version and, inside it, the binary taken from the last such entry
    with mode 0755 (493): nothing else is added and nothing stays in the
    cache. *)
Theorem first_install_adds_directory_and_binary (w : World) (body c : list ascii)
    (files : list (string * list ascii)) :
  fs w !! dir = None → denied w dir = false →
  fs w !! archivePath = None → denied w archivePath = false →
  fs w !! bin = None → denied w bin = false →
  archivePath ≠ dir → bin ≠ archivePath →
  net w !! URL_String url = Some body →
  accepted t w name (sha256_Sum body) →
  zip_OpenReader body = Ok files →
  last_terraform files = Some c →
  ∃ w', install_version t w = (Return tt, w') ∧
        fs w' = <[bin := File c 493%N]> (<[dir := Dir]> (fs w)).
Proof.
  intros Hd Hdd Ha Had Hb Hbd Had' Hne Hbody Hacc Hzip Hlast.
  assert (with_dir (fs w) dir = <[dir := Dir]> (fs w)) as Hwd
    by (unfold with_dir; by rewrite Hd).
  assert (bin ≠ dir) as Hbdir by apply (bin_neq_dir t).
  destruct (install_version_unpacked w body files) as (w' & Hrun & Hfs & _); try done.
  - rewrite Hwd. split; rewrite lookup_insert_ne by done; [by rewrite Ha | done].
  - rewrite Hwd. split; rewrite lookup_insert_ne by done; [by rewrite Hb | done].
  - exists w'. split; [exact Hrun|].
    rewrite Hfs, Hlast, Hwd. apply delete_id.
    by rewrite !lookup_insert_ne by done.
Qed.

(** X8.  An archive that is accepted and opens but holds no entry named
    [terraform]: the loop over the entries writes nothing, and [install]
    still ends with "Successfully installed Terraform version ..." while
    the binary of the version is as it was, absent on a first
    installation. *)
Theorem archive_without_binary_reported_installed (w : World) (body : list ascii)
    (files : list (string * list ascii)) :
  (fs w !! dir = None → denied w dir = false) →
  creatable (with_dir (fs w) dir) (denied w) archivePath →
  creatable (with_dir (fs w) dir) (denied w) bin →
  bin ≠ archivePath →
  net w !! URL_String url = Some body →
  accepted t w name (sha256_Sum body) →
  zip_OpenReader body = Ok files →
  Forall (λ file, file.1 ≠ "terraform") files →
  ∃ w', install_version t w = (Return tt, w') ∧
        last (printed w w') =
          Some ("Successfully installed Terraform version "
                +:+ Version_String (Version t) +:+ nl) ∧
        fs w' !! bin = fs w !! bin.
Proof.
  intros Hdir Hcr Hbin Hne Hbody Hacc Hzip Hnone.
  assert (last_terraform files = None) as Hlast.
  { clear -Hnone. induction Hnone as [|file files Hf _ IH]; [done|].
    simpl. rewrite IH. by apply String.eqb_neq in Hf as ->. }
  destruct (install_version_unpacked w body files Hdir Hcr Hbin Hne Hbody Hacc Hzip)
    as (w' & Hrun & Hfs & Hout).
  exists w'. split; [exact Hrun|]. split; [exact Hout|].
  rewrite Hfs, Hlast, lookup_delete_ne by done. apply (with_dir_bin t).
Qed.

(** X9.  What [install] writes is what [exec] looks for.  After the
    installation of a version went through with a binary in the archive,
    the loop of [exec], on reaching that version under a constraint it
    satisfies, hands the process over to the binary just installed, with
    [terraform] and the arguments of [exec] as argument vector. *)
Theorem installed_binary_is_executed (w : World) (body c : list ascii)
    (files : list (string * list ascii)) (cs : list version_Constraint) :
  (fs w !! dir = None → denied w dir = false) →
  creatable (with_dir (fs w) dir) (denied w) archivePath →
  creatable (with_dir (fs w) dir) (denied w) bin →
  bin ≠ archivePath →
  net w !! URL_String url = Some body →
  accepted t w name (sha256_Sum body) →
  zip_OpenReader body = Ok files →
  last_terraform files = Some c →
  Constraints_Check cs (Version t) = true →
  ∃ w', install_version t w = (Return tt, w') ∧
        fs w' !! bin = Some (File c 493%N) ∧
        ∀ args t' rest,
          Version t' = Version t →
          exec_loop args cs (t' :: rest) w'
          = (Stop (Replaced bin ("terraform" :: args)), w').
Proof.
  intros Hdir Hcr Hbin Hne Hbody Hacc Hzip Hlast Hcheck.
  destruct (install_version_unpacked w body files Hdir Hcr Hbin Hne Hbody Hacc Hzip)
    as (w' & Hrun & Hfs & _).
  assert (fs w' !! bin = Some (File c 493%N)) as Hinst.
  { rewrite Hfs, Hlast, lookup_delete_ne by done. apply lookup_insert_eq. }
  exists w'. split; [exact Hrun|]. split; [exact Hinst|].
  intros args t' rest Hv.
  assert (binary_of t' = bin) as Hb by (unfold binary_of; by rewrite Hv).
  rewrite <- Hb. apply (exec_loop_runs args cs t' rest w' c 493%N).
  - by rewrite Hv.
  - by rewrite Hb.
  - done.
Qed.

(** X10.  [log.Fatal] skips the deferred removal.  Once the directory of
    the version is there and the archive file is created, a run of
    [install] that does not return ends in [log.Fatal] (a failed request,
    an unreadable manifest, an archive that does not open, a binary that
    cannot be written), and it leaves both behind: the archive file in the
    cache and the directory of the version in the install root. *)
Theorem fatal_install_leaves_archive (w : World) :
  (fs w !! dir = None → denied w dir = false) →
  creatable (with_dir (fs w) dir) (denied w) archivePath →
  (install_version t w).1 ≠ Return tt →
  (install_version t w).1 = Stop Fatal ∧
  is_Some (fs (install_version t w).2 !! archivePath) ∧
  is_Some (fs (install_version t w).2 !! dir).
Proof.
  intros Hdir Hcr.
  set (R := λ w w' : World, ∀ p, is_Some (fs w !! p) → is_Some (fs w' !! p)).
  assert (∀ q w0 x, R w0 (set_fs <[q := x]> w0)) as Hins.
  { intros q w0 x p Hp. cbn. destruct (decide (q = p)) as [->|Hq].
    - rewrite lookup_insert_eq. by eexists.
    - by rewrite lookup_insert_ne. }
  pose proof (within_download R (λ s, s = Fatal)
                (λ w0 p Hp, Hp) (λ a b c H1 H2 p Hp, H2 p (H1 p Hp))
                (λ w0 s p Hp, Hp) eq_refl
                t url dir archivePath (Hins archivePath) (Hins bin)
                (λ w0 p Hp, Hp) (λ curl _ w0 p Hp, Hp)) as Hm.
  unfold install_version.
  rewrite (make_dir t _ w Hdir), t_URL.
  erewrite bind_Return; [|apply orFatal_Ok, os_Create_ok; exact Hcr].
  match goal with |- context [defer _ ?b ?w0] => set (m := b) in *; set (w1 := w0) end.
  assert (within R (λ s, s = Fatal) m) as Hm' by exact Hm.
  destruct (Hm' w1) as [Hgrow Hstop]. unfold defer.
  destruct (m w1) as [[[]|s] w4]; cbn in *.
  - intros Hnot. by destruct Hnot.
  - intros _. split; [by rewrite (Hstop s eq_refl)|].
    split; apply Hgrow; subst w1; cbn.
    + rewrite lookup_insert_eq. by eexists.
    + apply lookup_insert_is_Some'. right. unfold with_dir, dir.
      destruct (fs w !! _) eqn:Hd; [by eexists | rewrite lookup_insert_eq; by eexists].
Qed.


(** [install] leaves the configuration as it is. *)
Lemma install_version_config (w : World) : config (install_version t w).2 = config w.
Proof.
  assert (within (λ w w', config w' = config w) (λ _, True) (install_version t)) as H.
  { apply within_install_version; try done. intros a b c0 H1 H2. congruence. }
  apply H.
Qed.

End Installation.

(* ===================================================================== *)
(** ** [exec] on what is installed *)

(** [exec] is its second loop over the installed versions, newest first,
    under the constraint of the configuration, and the line that follows
    the loop. *)
Lemma exec_run (args : list string) (w : World) (tfVersions : list tfVersion)
    (cs : list version_Constraint) :
  fs w !! tfVersionsDirPath = Some Dir →
  installed (entries w) = Ok tfVersions →
  getConstraints w = (Return cs, w) →
  exec args w =
  (exec_loop args cs (sortDsc tfVersions);;
   Printf ("None of the installed Terraform versions matched the constraints" +:+ nl)) w.
Proof.
  intros Hroot Hinst Hcs. unfold exec.
  erewrite bind_Return; [|apply orFatal_Ok, os_Readdir_entries; exact Hroot].
  erewrite bind_Return; [|rewrite parse_entries_installed, Hinst; reflexivity].
  cbv zeta. by erewrite bind_Return; [|exact Hcs].
Qed.

(** X12.  [exec] hands the process over to the binary of the newest
    installed version that satisfies the constraint, when that binary can
    be executed: the argument vector is [terraform] followed by the
    arguments of [exec] unchanged, nothing is printed and nothing is
    written.  No installed version that satisfies the constraint is newer
    than the one executed. *)
Theorem exec_runs_newest (args : list string) (w : World)
    (tfVersions : list tfVersion) (cs : list version_Constraint) (t : tfVersion)
    (c : list ascii) (m : N) :
  fs w !! tfVersionsDirPath = Some Dir →
  installed (entries w) = Ok tfVersions →
  getConstraints w = (Return cs, w) →
  List.find (λ c, Constraints_Check cs (Version c)) (sortDsc tfVersions) = Some t →
  fs w !! binary_of t = Some (File c m) →
  N.land m 73 ≠ 0%N →
  exec args w = (Stop (Replaced (binary_of t) ("terraform" :: args)), w) ∧
  In t tfVersions ∧
  ∀ t', In t' tfVersions → Constraints_Check cs (Version t') = true →
        Compare (Version t') (Version t) ≠ Gt.
Proof.
  intros Hroot Hinst Hcs Hfind Hbin Hx. split.
  - rewrite (exec_run args w tfVersions cs Hroot Hinst Hcs).
    destruct (find_split _ _ _ Hfind) as (l1 & l2 & -> & Hl1 & Ht).
    erewrite bind_Stop; [reflexivity|].
    rewrite (exec_loop_skip _ _ _ _ _ Hl1).
    by apply (exec_loop_runs args cs t l2 w c m).
  - destruct (select_newest cs tfVersions t Hfind) as (Hin & _ & Hmax). by split.
Qed.

(** X13.  When the binary of the newest installed version that satisfies
    the constraint is there but cannot be executed (it has no execute
    bit, or it is a directory), [exec] ends in [log.Fatal]: nothing is
    printed, and no older version is tried. *)
Theorem exec_fatal_when_binary_not_executable (args : list string) (w : World)
    (tfVersions : list tfVersion) (cs : list version_Constraint) (t : tfVersion)
    (nd : node) :
  fs w !! tfVersionsDirPath = Some Dir →
  installed (entries w) = Ok tfVersions →
  getConstraints w = (Return cs, w) →
  List.find (λ c, Constraints_Check cs (Version c)) (sortDsc tfVersions) = Some t →
  fs w !! binary_of t = Some nd →
  (∀ c m, nd = File c m → N.land m 73 = 0%N) →
  exec args w = (Stop Fatal, w).
Proof.
  intros Hroot Hinst Hcs Hfind Hbin Hx.
  rewrite (exec_run args w tfVersions cs Hroot Hinst Hcs).
  destruct (find_split _ _ _ Hfind) as (l1 & l2 & -> & Hl1 & Ht).
  erewrite bind_Stop; [reflexivity|].
  rewrite (exec_loop_skip _ _ _ _ _ Hl1).
  by apply (exec_loop_fails args cs t l2 w nd).
Qed.

(** X14.  When no installed version satisfies the constraint, as when
    nothing is installed at all, [exec] prints "None of the installed
    Terraform versions matched the constraints" and returns: nothing is
    executed, and the process ends with status 0. *)
Theorem exec_without_match (args : list string) (w : World)
    (tfVersions : list tfVersion) (cs : list version_Constraint) :
  fs w !! tfVersionsDirPath = Some Dir →
  installed (entries w) = Ok tfVersions →
  getConstraints w = (Return cs, w) →
  Forall (λ t, Constraints_Check cs (Version t) = false) tfVersions →
  exec args w =
  (Return tt,
   add_out ("None of the installed Terraform versions matched the constraints" +:+ nl) w) ∧
  exit_status (exec args w).1 = Some 0%Z.
Proof.
  intros Hroot Hinst Hcs Hnone.
  assert (exec args w =
          (Return tt,
           add_out ("None of the installed Terraform versions matched the constraints"
                    +:+ nl) w)) as Hrun.
  { rewrite (exec_run args w tfVersions cs Hroot Hinst Hcs).
    assert (Forall (λ t, Constraints_Check cs (Version t) = false) (sortDsc tfVersions))
      as Hsorted.
    { apply List.Forall_forall. intros t Hin.
      rewrite List.Forall_forall in Hnone. apply Hnone.
      eapply Permutation_in; [symmetry; apply sortDsc_Permutation | exact Hin]. }
    erewrite bind_Return; [reflexivity|].
    rewrite <- (app_nil_r (sortDsc tfVersions)).
    by rewrite (exec_loop_skip _ _ _ _ _ Hsorted). }
  by rewrite Hrun.
Qed.

(** X15.  A configuration that cannot be loaded, or whose required
    version is not a constraint, ends both [install] and [exec] in
    [log.Fatal] before they act.  [install] has sent the requests of the
    scrape by then, for the index of the site and the pages of the
    releases, and nothing else: no archive is requested, nothing is
    printed and no file is written.  [exec] has executed nothing. *)
Theorem unusable_configuration_is_fatal (args : list string) (w : World) :
  (config w = None ∧ nil_block w = false) ∨
  (∃ rv, config w = Some rv ∧ rv ≠ "" ∧ version_NewConstraint rv = Err) →
  install w = (Stop Fatal, scrape_gets w) ∧
  exec args w = (Stop Fatal, w).
Proof.
  intros Hcfg.
  assert (∀ w0, config w0 = config w → nil_block w0 = nil_block w →
                getConstraints w0 = (Stop Fatal, w0)) as Hgc.
  { intros w0 H0 Hn. unfold getConstraints. rewrite H0, Hn.
    destruct Hcfg as [[-> ->]|(rv & -> & Hne & Herr)]; [done|].
    apply String.eqb_neq in Hne. by rewrite Hne, Herr. }
  split.
  - unfold install, get, mbind, M_bind.
    destruct (catalog w) as [l|]; [|done]. by rewrite Hgc.
  - unfold exec, orFatal, os_Readdir, mbind, M_bind.
    destruct (fs w !! tfVersionsDirPath) as [[|c m]|]; cbn; try done.
    rewrite parse_entries_installed. destruct (installed _); [|done].
    by rewrite Hgc.
Qed.

(* ===================================================================== *)
(** ** The name the program is called under *)

Lemma list_ascii_of_string_append (a b : string) :
  list_ascii_of_string (a +:+ b) = list_ascii_of_string a ++ list_ascii_of_string b.
Proof. induction a as [|x a IH]; [done|]. rewrite append_cons. simpl. by rewrite IH. Qed.

Lemma upto_slash_app (e rest : list ascii) :
  existsb is_slash e = false → upto_slash (e ++ "/"%char :: rest) = e.
Proof.
  induction e as [|x e IH]; simpl; [done|].
  intros [Hx He]%orb_false_iff. by rewrite Hx, IH.
Qed.

(** [path.Base] of a directory joined with an element is the element. *)
Lemma path_Base_Join (d e : string) :
  e ≠ "" → existsb is_slash (list_ascii_of_string e) = false →
  path_Base (path_Join d e) = e.
Proof.
  intros Hne Hsl. unfold path_Base, path_Join.
  destruct (d +:+ "/" +:+ e) as [|x s] eqn:Hs.
  { destruct d; discriminate. }
  rewrite <- Hs. clear Hs.
  rewrite !list_ascii_of_string_append, !rev_app_distr. cbn [list_ascii_of_string rev app].
  rewrite <- app_assoc. cbn [app].
  assert (existsb is_slash (rev (list_ascii_of_string e)) = false) as Hrev.
  { apply not_true_is_false. intros (c & Hin & Hc)%existsb_exists.
    apply List.in_rev in Hin.
    assert (existsb is_slash (list_ascii_of_string e) = true) as Ht
      by (apply existsb_exists; by exists c).
    by rewrite Ht in Hsl. }
  destruct (rev (list_ascii_of_string e)) as [|y r] eqn:Hr.
  { apply (f_equal (@rev ascii)) in Hr. rewrite rev_involutive in Hr. simpl in Hr.
    destruct e; [done | discriminate]. }
  cbn [drop_slashes app]. simpl in Hrev. apply orb_false_iff in Hrev as [Hy Hrest].
  rewrite Hy. change (y :: r ++ "/"%char :: rev (list_ascii_of_string d))
    with ((y :: r) ++ "/"%char :: rev (list_ascii_of_string d)).
  rewrite upto_slash_app by (simpl; by rewrite Hy, Hrest).
  rewrite <- Hr, rev_involutive.
  destruct (list_ascii_of_string e) as [|z l] eqn:Hl.
  { destruct e; [done | discriminate]. }
  by rewrite <- Hl, string_of_list_ascii_of_string.
Qed.

(** X16.  Called under the name [terraform], from whatever directory,
    the program is [exec] on all its arguments: the first argument is
    not looked at, so that [list], [install] and [exec] are passed on to
    the binary like any other word, and no flag is parsed. *)
Theorem main_as_terraform (args : list string) (w : World) :
  main ("terraform" :: args) w = exec args w ∧
  ∀ d, main (path_Join d "terraform" :: args) w = exec args w.
Proof.
  split; [done|]. intros d. unfold main.
  by rewrite (path_Base_Join d "terraform").
Qed.

(* ===================================================================== *)
(** ** The record of the archive in the manifest *)

(** The loop passes over well-formed records for other files. *)
Lemma scan_manifest_skips (pre : list (list ascii * string)) (fuel : nat)
    (name : string) (sum rest : list ascii) (w : World) :
  Forall well_formed pre →
  Forall (λ r, r.2 ≠ name) pre →
  scan_manifest (length pre + fuel) name sum (render_manifest pre ++ rest) w
  = scan_manifest fuel name sum rest w.
Proof.
  intros Hwf. induction Hwf as [|[d f] pre [Hd Hf] _ IH]; intros Hne; [done|].
  apply Forall_cons in Hne as [Hf' Hne]. cbn [fst snd] in *.
  unfold render_manifest. cbn [map concat length Nat.add]. fold (render_manifest pre).
  rewrite <- app_assoc.
  cbn [scan_manifest]. rewrite (Fscanf_record d f _ Hd Hf). cbn [err n filename checksum].
  cbn [Nat.eqb]. apply String.eqb_neq in Hf'. rewrite Hf'. by apply IH.
Qed.

(** X17.  The loop over the manifest stops at the first record for the
    archive.  After well-formed records for other files, the record of
    the archive decides: [install] goes on in silence when its digest is
    that of the download, and prints "Checksum verification failed" and
    gives up otherwise.  What follows that record in the manifest is not
    read, whatever it is. *)
Theorem verify_stops_at_record (t : tfVersion) (curl : url_URL)
    (pre : list (list ascii * string)) (d : list ascii) (name : string)
    (sum rest : list ascii) (w : World) :
  ChecksumURL t = Some curl →
  net w !! URL_String curl
  = Some (render_manifest pre ++ render_record (d, name) ++ rest) →
  Forall well_formed pre →
  Forall (λ r, r.2 ≠ name) pre →
  well_formed (d, name) →
  verify t name sum w =
  if bool_decide (sum = d) then (Return true, add_get (URL_String curl) w)
  else (Return false,
        add_out ("Checksum verification failed" +:+ nl) (add_get (URL_String curl) w)).
Proof.
  intros Hc Hnet Hwf Hne [Hd Hf]. cbn [fst snd] in *. unfold verify. rewrite Hc.
  erewrite bind_Return; [|apply orFatal_Ok, http_Get_ok; exact Hnet].
  pose proof (length_render_manifest pre) as Hlen.
  set (k := S (length (render_manifest pre ++ render_record (d, name) ++ rest))
            - length pre).
  replace (S (length (render_manifest pre ++ render_record (d, name) ++ rest)))
    with (length pre + k) by (unfold k; rewrite length_app; lia).
  rewrite scan_manifest_skips by done.
  assert (0 < k) as Hk by (unfold k; rewrite length_app; lia).
  destruct k as [|k']; [lia|].
  cbn [scan_manifest]. rewrite (Fscanf_record d name _ Hd Hf).
  cbn [err n filename checksum Nat.eqb]. rewrite String.eqb_refl.
  by destruct (bool_decide (sum = d)).
Qed.

(* ===================================================================== *)
(** ** From [install] to [exec] *)

Lemma getConstraints_config (w1 w2 : World) (cs : list version_Constraint) :
  config w1 = config w2 →
  getConstraints w2 = (Return cs, w2) → getConstraints w1 = (Return cs, w1).
Proof.
  intros Hc. unfold getConstraints. rewrite Hc.
  destruct (config w2) as [rv|]; [|by destruct (nil_block w2)].
  destruct (String.eqb rv ""); [by intros [= <-]|].
  destruct (version_NewConstraint rv); [by intros [= <-] | done].
Qed.

(** What [Readdir] lists under the install root once an entry is added
    to the file system. *)
Lemma entries_insert (f : gmap string node) (k : string) (x : node) :
  f !! k = None →
  omap (λ e, entry_name tfVersionsDirPath e.1) (map_to_list (<[k := x]> f))
  ≡ₚ match entry_name tfVersionsDirPath k with
     | Some nm => nm :: omap (λ e, entry_name tfVersionsDirPath e.1) (map_to_list f)
     | None => omap (λ e, entry_name tfVersionsDirPath e.1) (map_to_list f)
     end.
Proof.
  intros Hk. rewrite (map_to_list_insert f k x Hk). csimpl.
  by destruct (entry_name tfVersionsDirPath k).
Qed.

Lemma entry_name_child (nm : string) :
  nm ≠ "" → existsb is_slash (list_ascii_of_string nm) = false →
  entry_name tfVersionsDirPath (path_Join tfVersionsDirPath nm) = Some nm.
Proof.
  intros Hne Hsl. unfold entry_name, path_Join.
  rewrite <- append_assoc, strip_prefix_append.
  apply String.eqb_neq in Hne. by rewrite Hne, Hsl.
Qed.

Lemma entry_name_grandchild (nm e : string) :
  entry_name tfVersionsDirPath (path_Join (path_Join tfVersionsDirPath nm) e) = None.
Proof.
  unfold entry_name, path_Join.
  rewrite !append_assoc, <- (append_assoc tfVersionsDirPath "/"), strip_prefix_append.
  destruct (String.eqb _ ""); [done|].
  rewrite !list_ascii_of_string_append, !existsb_app. cbn.
  by rewrite orb_true_r.
Qed.

(** X18.  From [install] to [exec], with nothing installed before.  The
    first installation of a version goes through with a binary in the
    archive; the name of the directory it made parses back to a version
    that prints the same and satisfies the constraint.  Then [exec], run
    in the world [install] left, finds that one version installed and
    hands the process over to the binary just written, with [terraform]
    and its own arguments as argument vector. *)
Theorem install_then_exec (t : tfVersion) (url : url_URL) (w : World)
    (body c : list ascii) (files : list (string * list ascii))
    (args : list string) (cs : list version_Constraint) (v' : version_Version) :
  let nm := Version_String (Version t) in
  let dir := path_Join tfVersionsDirPath nm in
  let archivePath := path_Join cacheDirPath (path_Base (Path url)) in
  let bin := path_Join dir "terraform" in
  URL t = Some url →
  fs w !! tfVersionsDirPath = Some Dir →
  entries w = [] →
  fs w !! dir = None → denied w dir = false →
  fs w !! archivePath = None → denied w archivePath = false →
  fs w !! bin = None → denied w bin = false →
  archivePath ≠ dir → bin ≠ archivePath →
  net w !! URL_String url = Some body →
  accepted t w (path_Base (Path url)) (sha256_Sum body) →
  zip_OpenReader body = Ok files →
  last_terraform files = Some c →
  getConstraints w = (Return cs, w) →
  nm ≠ "" →
  existsb is_slash (list_ascii_of_string nm) = false →
  version_NewVersion nm = Ok v' →
  Version_String v' = nm →
  Constraints_Check cs v' = true →
  ∃ w', install_version t w = (Return tt, w') ∧
        exec args w' = (Stop (Replaced bin ("terraform" :: args)), w').
Proof.
  intros nm dir archivePath bin Hurl Hroot Hempty Hd Hdd Ha Had Hb Hbd Had' Hne Hbody
         Hacc Hzip Hlast Hcs Hnm Hsl Hparse Hprint Hcheck.
  assert (∃ w', install_version t w = (Return tt, w') ∧
                fs w' = <[bin := File c 493%N]> (<[dir := Dir]> (fs w)))
    as (w' & Hrun & Hfs).
  { subst bin archivePath dir nm.
    assert (with_dir (fs w) (path_Join tfVersionsDirPath (Version_String (Version t)))
            = <[path_Join tfVersionsDirPath (Version_String (Version t)) := Dir]> (fs w))
      as Hwd by (unfold with_dir; by rewrite Hd).
    pose proof (bin_neq_dir t) as Hbdir.
    destruct (install_version_unpacked t url Hurl w body files)
      as (w' & Hrun & Hfs & _); try done.
    - rewrite Hwd. split; rewrite lookup_insert_ne by done; [by rewrite Ha | done].
    - rewrite Hwd. split; rewrite lookup_insert_ne by done; [by rewrite Hb | done].
    - exists w'. split; [exact Hrun|].
      rewrite Hfs, Hlast, Hwd. apply delete_id.
      by rewrite !lookup_insert_ne by done. }
  exists w'. split; [exact Hrun|].
  assert (config w' = config w) as Hcfg.
  { pose proof (install_version_config t w) as H. by rewrite Hrun in H. }
  assert (fs w' !! tfVersionsDirPath = Some Dir) as Hroot'.
  { rewrite Hfs, !lookup_insert_ne; [done| |].
    - unfold dir, path_Join. by apply append_neq.
    - unfold bin, dir, path_Join. rewrite append_assoc. by apply append_neq. }
  assert (entries w' = [nm]) as Hent.
  { apply Permutation_singleton_r. unfold entries. rewrite Hfs.
    rewrite entries_insert
      by (rewrite lookup_insert_ne by (intros E; by apply (bin_neq_dir t)); done).
    unfold bin, dir. rewrite entry_name_grandchild.
    rewrite entries_insert by done.
    rewrite (entry_name_child nm Hnm Hsl).
    fold (entries w). by rewrite Hempty. }
  set (t' := {| Version := v'; URL := None; ChecksumURL := None;
                ChecksumSignatureURL := None |} : tfVersion).
  assert (installed (entries w') = Ok [t']) as Hinst.
  { rewrite Hent. cbn. by rewrite Hparse. }
  rewrite (exec_run args w' [t'] cs Hroot' Hinst
             (getConstraints_config w' w cs Hcfg Hcs)).
  assert (sortDsc [t'] = [t']) as ->.
  { apply Permutation_singleton_r. symmetry. apply sortDsc_Permutation. }
  erewrite bind_Stop; [reflexivity|].
  assert (binary_of t' = bin) as Hbin by (unfold binary_of, bin, dir; cbn; by rewrite Hprint).
  rewrite <- Hbin. apply (exec_loop_runs args cs t' [] w' c 493%N); [done| |done].
  rewrite Hbin, Hfs. apply lookup_insert_eq.
Qed.

(* ===================================================================== *)
(** ** [init] *)

Lemma adds_dirs_refl (f : gmap string node) : adds_dirs f f.
Proof. intros p. by left. Qed.

Lemma adds_dirs_trans (f g h : gmap string node) :
  adds_dirs f g → adds_dirs g h → adds_dirs f h.
Proof.
  intros H1 H2 p. destruct (H1 p) as [E1|[N1 D1]], (H2 p) as [E2|[N2 D2]].
  - left. congruence.
  - right. split; congruence.
  - right. split; congruence.
  - congruence.
Qed.


Lemma ensure_dir_present (p : string) (w : World) :
  is_Some (fs w !! p) → ensure_dir p w = (Return tt, w).
Proof.
  intros [nd H]. unfold ensure_dir.
  erewrite bind_Return;
    [|unfold os_IsNotExist; rewrite bool_decide_eq_false_2 by (by rewrite H); reflexivity].
  done.
Qed.

(** The three outcomes of the check of a directory. *)
Lemma ensure_dir_cases (p : string) (w : World) :
  (is_Some (fs w !! p) ∧ ensure_dir p w = (Return tt, w)) ∨
  (fs w !! p = None ∧ denied w p = false ∧
   ensure_dir p w = (Return tt, set_fs <[p := Dir]> w)) ∨
  (fs w !! p = None ∧ denied w p = true ∧ ensure_dir p w = (Stop Fatal, w)).
Proof.
  destruct (fs w !! p) as [nd|] eqn:Hp.
  - left. split; [by exists nd|]. apply ensure_dir_present. by exists nd.
  - right. unfold ensure_dir.
    erewrite bind_Return;
      [|unfold os_IsNotExist; rewrite bool_decide_eq_true_2 by exact Hp; reflexivity].
    cbn iota. unfold orFatal, mbind, M_bind, os_Mkdir. rewrite Hp.
    destruct (denied w p); [right | left]; done.
Qed.




(** X20.  However [init] ends, it has at most added directories where
    there was nothing: every entry of the file system that was there is
    as it was, in particular a regular file at the place of one of the
    three directories is left there and taken for the directory.  [init]
    prints nothing, sends no request, and ends by returning or in
    [log.Fatal]. *)
Theorem init_adds_only_directories (home cache : result string) (w : World) :
  adds_dirs (fs w) (fs (init home cache w).2) ∧
  out (init home cache w).2 = out w ∧
  gets (init home cache w).2 = gets w ∧
  ((∃ g, (init home cache w).1 = Return g) ∨ (init home cache w).1 = Stop Fatal).
Proof.
  set (R := λ w w' : World,
              adds_dirs (fs w) (fs w') ∧ out w' = out w ∧ gets w' = gets w).
  assert (∀ w0, R w0 w0) as Hrefl by (intros w0; split; [apply adds_dirs_refl | done]).
  assert (∀ a b c, R a b → R b c → R a c) as Htrans.
  { intros a b c (A1 & O1 & G1) (A2 & O2 & G2).
    split; [by eapply adds_dirs_trans|]. split; congruence. }
  assert (∀ p, within R (λ s, s = Fatal) (ensure_dir p)) as Hens.
  { intros p w0.
    destruct (ensure_dir_cases p w0) as [[Hs ->]|[(Hn & Hd & ->)|(Hn & Hd & ->)]]; cbn.
    - by split.
    - split; [|done]. split; [|done].
      intros q. cbn. destruct (decide (q = p)) as [->|Hq].
      + right. by rewrite lookup_insert_eq.
      + left. by rewrite lookup_insert_ne.
    - split; [apply Hrefl|]. by intros s [= <-]. }
  set (St := λ s : stop, s = Fatal).
  assert (within R St (init home cache)) as H.
  { unfold init.
    apply (within_bind R St Htrans);
      [apply (within_orFatal R St Hrefl Htrans eq_refl), (within_mret R St Hrefl)|].
    intros h. apply (within_bind R St Htrans); [apply Hens|]. intros _.
    apply (within_bind R St Htrans); [apply Hens|]. intros _.
    apply (within_bind R St Htrans);
      [apply (within_orFatal R St Hrefl Htrans eq_refl), (within_mret R St Hrefl)|].
    intros c. apply (within_bind R St Htrans); [apply Hens|]. intros _.
    apply (within_mret R St Hrefl). }
  destruct (H w) as [(HA & HO & HG) Hs]. repeat split; try done.
  destruct (init home cache w).1 as [g|s]; [left; by exists g | right].
  by rewrite (Hs s eq_refl).
Qed.

(* ===================================================================== *)
(** ** The pages of the release site *)

Section Pages.

Context {site : Site}.

(** On the link to the archive the closure sets the version and the
    location, and leaves the two other locations. *)
Lemma visit_link (f : scraped version_Version) (a : anchor)
    (v : version_Version) (u : url_URL) :
  archive_link a v u →
  visit f a = {| s_Version := Some v; s_URL := Some u;
                 s_ChecksumURL := s_ChecksumURL f;
                 s_ChecksumSignatureURL := s_ChecksumSignatureURL f |}.
Proof.
  intros (_url & _version & Hh & Hp & Hs1 & Hs2 & Hos & Harch & Hv & Hnv).
  unfold visit. rewrite Hh, Hp, Hs1, Hs2, Hos, Harch, Hv, Hnv.
  by rewrite !String.eqb_refl.
Qed.

(** On any other anchor it leaves the version and the location. *)
Lemma visit_cases (f : scraped version_Version) (a : anchor) :
  (∃ v u, archive_link a v u) ∨
  (s_Version (visit f a) = s_Version f ∧ s_URL (visit f a) = s_URL f).
Proof.
  unfold visit, archive_link.
  destruct (href a) as [_url|]; [|by right].
  destruct (url_Parse _url) as [url|] eqn:Hp; [|by right].
  destruct (strings_HasSuffix _url "_SHA256SUMS") eqn:Hs1; [by right|].
  destruct (strings_HasSuffix _url "_SHA256SUMS.sig") eqn:Hs2; [by right|].
  destruct (data_os a) as [os|]; [|by right].
  destruct (String.eqb os runtime_GOOS) eqn:Hos; [|by right].
  destruct (data_arch a) as [arch|]; [|by right].
  destruct (String.eqb arch runtime_GOARCH) eqn:Harch; [|by right].
  destruct (data_version a) as [_version|]; [|by right].
  destruct (version_NewVersion _version) as [version|] eqn:Hv; [|by right].
  apply String.eqb_eq in Hos, Harch. subst.
  left. exists version, url, _url, _version. done.
Qed.

Lemma archive_link_functional (a : anchor) (v v' : version_Version) (u u' : url_URL) :
  archive_link a v u → archive_link a v' u' → v = v' ∧ u = u'.
Proof.
  intros (h & sv & Hh & Hp & _ & _ & _ & _ & Hv & Hnv)
         (h' & sv' & Hh' & Hp' & _ & _ & _ & _ & Hv' & Hnv').
  split; congruence.
Qed.

(** Past the last link to the archive nothing changes the version and
    the location. *)
Lemma fold_visit_others (l : list anchor) (f : scraped version_Version) :
  (∀ a v u, In a l → ¬ archive_link a v u) →
  s_Version (fold_left visit l f) = s_Version f ∧
  s_URL (fold_left visit l f) = s_URL f.
Proof.
  revert f. induction l as [|a l IH]; intros f Hno; [done|]. simpl.
  destruct (IH (visit f a)) as [E1 E2]; [intros a' v u Hin; apply Hno; by right|].
  rewrite E1, E2.
  destruct (visit_cases f a) as [(v & u & Hl)|H]; [|done].
  exfalso. apply (Hno a v u); [by left | done].
Qed.

(** The version and the location a worker has found come from one link
    to the archive on its page. *)
Lemma fold_visit_link (page l : list anchor) (f : scraped version_Version) :
  (∀ a, In a l → In a page) →
  (∀ v, s_Version f = Some v →
        ∃ a u, In a page ∧ archive_link a v u ∧ s_URL f = Some u) →
  ∀ v, s_Version (fold_left visit l f) = Some v →
       ∃ a u, In a page ∧ archive_link a v u ∧ s_URL (fold_left visit l f) = Some u.
Proof.
  revert f. induction l as [|a l IH]; intros f Hsub Hf; [done|]. simpl.
  apply IH; [intros a' Hin; apply Hsub; by right|].
  destruct (visit_cases f a) as [(v & u & Hl)|[E1 E2]].
  - rewrite (visit_link f a v u Hl). cbn. intros v' [= <-].
    exists a, u. split; [apply Hsub; by left | done].
  - rewrite E1, E2. exact Hf.
Qed.

(** X21.  On the page of a release the last link to the archive for the
    platform decides: whatever precedes it, and whatever other anchors
    follow it, the worker sends the version and the location of that
    link, both taken from the same anchor. *)
Theorem worker_takes_last_archive_link (l1 l2 : list anchor) (a : anchor)
    (v : version_Version) (u : url_URL) :
  archive_link a v u →
  (∀ a' v' u', In a' l2 → ¬ archive_link a' v' u') →
  s_Version (worker (l1 ++ a :: l2)) = Some v ∧
  s_URL (worker (l1 ++ a :: l2)) = Some u.
Proof.
  intros Hl Hno. unfold worker. rewrite fold_left_app. simpl.
  destruct (fold_visit_others l2 (visit (fold_left visit l1
              {| s_Version := None; s_URL := None; s_ChecksumURL := None;
                 s_ChecksumSignatureURL := None |}) a) Hno) as [-> ->].
  by rewrite (visit_link _ a v u Hl).
Qed.

(** X22.  A page without a link to the archive for the platform gives no
    candidate: [get] returns what it returns without that page. *)
Theorem page_without_archive_link_is_dropped (pages1 pages2 : list (list anchor))
    (page : list anchor) :
  (∀ a v u, In a page → ¬ archive_link a v u) →
  candidates (pages1 ++ page :: pages2) = candidates (pages1 ++ pages2).
Proof.
  intros Hno.
  assert (s_Version (worker page) = None) as E.
  { unfold worker.
    by destruct (fold_visit_others page
                   {| s_Version := None; s_URL := None; s_ChecksumURL := None;
                      s_ChecksumSignatureURL := None |} Hno) as [-> _]. }
  unfold candidates, collect.
  rewrite !map_app, !omap_app. f_equal. cbn -[worker]. by rewrite E.
Qed.

(** Every candidate [get] returns has the version and the location of a
    link to the archive on one of the pages. *)
Lemma candidates_link (pages : list (list anchor)) (t : tfVersion) :
  In t (candidates pages) →
  ∃ page a u, In page pages ∧ In a page ∧
              archive_link a (Version t) u ∧ URL t = Some u.
Proof.
  unfold candidates, collect. intros Hin.
  apply list_elem_of_In, list_elem_of_omap in Hin as (r & Hr & Ht).
  apply list_elem_of_In, in_map_iff in Hr as (page & <- & Hpage).
  destruct (s_Version (worker page)) as [v|] eqn:Hv; [|done].
  injection Ht as <-. cbn.
  destruct (fold_visit_link page page
              {| s_Version := None; s_URL := None; s_ChecksumURL := None;
                 s_ChecksumSignatureURL := None |} (λ a H, H)
              ltac:(done) v Hv) as (a & u & Ha & Hl & Hu).
  by exists page, a, u.
Qed.

(** X23.  Every candidate [get] returns has a version and a location, and
    both come from one anchor of one page: a link to the archive for the
    platform.  [get] returns at most one candidate for a page. *)
Theorem candidates_come_from_archive_links (pages : list (list anchor)) :
  length (candidates pages) ≤ length pages ∧
  ∀ t, In t (candidates pages) →
       ∃ page a u, In page pages ∧ In a page ∧
                   archive_link a (Version t) u ∧ URL t = Some u.
Proof.
  split; [|apply candidates_link].
  unfold candidates, collect.
  rewrite <- (length_map worker pages). generalize (map worker pages).
  intros l. induction l as [|r l IH]; [done|].
  csimpl. destruct (s_Version r); simpl; lia.
Qed.

(** X24.  On the candidates [get] returns, [install] never dereferences
    a nil location.  The run ends by returning or in [log.Fatal], with
    one exception that has nothing to do with the candidates: when the
    configuration has no [terraform] block, [getConstraints] panics at
    the dereference of line 293, after the scrape and before any
    candidate is looked at. *)
Theorem install_panics_only_in_getConstraints (pages : list (list anchor)) (w : World) :
  catalog w = Some (candidates pages) →
  (install w).1 = Return tt ∨
  (install w).1 = Stop Fatal ∨
  ((install w).1 = Stop Panic ∧ config w = None ∧ nil_block w = true ∧
   (install w).2 = scrape_gets w).
Proof.
  intros Hcat.
  set (R := λ _ _ : World, True).
  assert (∀ cs, within R (λ s, s = Fatal) (install_loop cs (sortDsc (candidates pages))))
    as Hloop.
  { intros cs. apply within_install_loop; [done|].
    intros t Hin.
    assert (In t (candidates pages)) as Hin'.
    { eapply Permutation_in; [symmetry; apply sortDsc_Permutation | exact Hin]. }
    destruct (candidates_link pages t Hin') as (page & a & u & _ & _ & _ & Hu).
    apply within_install_version; try done. intros Hnil. congruence. }
  unfold install.
  erewrite bind_Return; [|unfold get; rewrite Hcat; reflexivity].
  cbv zeta.
  pose proof (getConstraints_world (scrape_gets w)) as Hw.
  pose proof (getConstraints_Stop (scrape_gets w)) as Hstop.
  destruct (getConstraints (scrape_gets w)) as [[cs|s] w1] eqn:Hg; cbn in Hw, Hstop.
  - rewrite (bind_Return _ _ _ _ _ Hg).
    destruct (Hloop cs w1) as [_ Hs].
    destruct (install_loop cs (sortDsc (candidates pages)) w1).1 as [[]|s]; [by left|].
    right. left. by rewrite (Hs s eq_refl).
  - rewrite (bind_Stop _ _ _ _ _ Hg). cbn. subst w1.
    destruct (Hstop s eq_refl) as [->|(-> & Hc & Hn)]; [by right; left|].
    by right; right.
Qed.

End Pages.

End Theory.

(* ===================================================================== *)
(** ** The concrete instance meets the contracts *)

Lemma bubble_Permutation {A} (less : A → A → bool) (x : A) (r : list A) :
  Permutation (bubble less x r) (x :: r).
Proof.
  induction r as [|y r IH]; simpl; [done|].
  destruct (less x y); [|done].
  rewrite IH. apply perm_swap.
Qed.

Lemma insertionSort_Permutation {A} (less : A → A → bool) (l : list A) :
  Permutation l (insertionSort less l).
Proof.
  unfold insertionSort. rewrite <- Permutation_rev.
  assert (∀ acc, Permutation (l ++ acc)
                   (fold_left (λ rprefix x, bubble less x rprefix) l acc)) as H.
  { induction l as [|x l IH]; intros acc; simpl; [done|].
    rewrite <- IH, bubble_Permutation. apply Permutation_middle. }
  specialize (H []). by rewrite app_nil_r in H.
Qed.

Lemma bubble_In {A} (less : A → A → bool) (x z : A) (r : list A) :
  In z (bubble less x r) → z = x ∨ In z r.
Proof.
  intros H. apply (Permutation_in _ (bubble_Permutation less x r)) in H.
  destruct H as [<-|H]; auto.
Qed.

Lemma bubble_sorted {A} (less : A → A → bool) (x : A) (r : list A) :
  strict_weak less →
  StronglySorted (λ a b, less a b = false) r →
  StronglySorted (λ a b, less a b = false) (bubble less x r).
Proof.
  intros (Hirr & Htr & Hneg). induction 1 as [|y r Hs IH Hy]; simpl.
  - repeat constructor.
  - destruct (less x y) eqn:E.
    + constructor; [exact IH|]. apply List.Forall_forall. intros z Hz.
      apply bubble_In in Hz as [->|Hz].
      * destruct (less y x) eqn:E'; [|done].
        pose proof (Htr _ _ _ E E') as Hxx. by rewrite Hirr in Hxx.
      * rewrite List.Forall_forall in Hy. by apply Hy.
    + constructor; [by constructor|]. constructor; [done|].
      eapply Forall_impl; [exact Hy|]. intros z Hz. exact (Hneg _ _ _ E Hz).
Qed.

Lemma insertionSort_Sorted {A} (less : A → A → bool) (l : list A) :
  strict_weak less → Sorted (λ x y, less y x = false) (insertionSort less l).
Proof.
  intros Hsw. apply StronglySorted_Sorted. unfold insertionSort.
  apply (StronglySorted_rev (λ a b, less a b = false)).
  assert (∀ acc, StronglySorted (λ a b, less a b = false) acc →
                 StronglySorted (λ a b, less a b = false)
                   (fold_left (λ rprefix x, bubble less x rprefix) l acc)) as H.
  { induction l as [|x l IH]; intros acc Hacc; simpl; [done|].
    by apply IH, bubble_sorted. }
  apply H. constructor.
Qed.

Lemma Sample_Compare_le (a b : Sample.ver) :
  Sample.Compare a b ≠ Gt ↔
  (a.1.1 < b.1.1 ∨ (a.1.1 = b.1.1 ∧ (a.1.2 < b.1.2 ∨ (a.1.2 = b.1.2 ∧ a.2 <= b.2))))%N.
Proof.
  destruct a as [[a1 a2] a3], b as [[b1 b2] b3]. unfold Sample.Compare. cbn [fst snd].
  destruct (N.compare_spec a1 b1), (N.compare_spec a2 b2), (N.compare_spec a3 b3);
    split; intros Hc; try done; try lia.
Qed.

Lemma Sample_Compare_flip (a b : Sample.ver) :
  Sample.Compare b a = CompOpp (Sample.Compare a b).
Proof.
  unfold Sample.Compare.
  rewrite (N.compare_antisym a.1.1), (N.compare_antisym a.1.2), (N.compare_antisym a.2).
  destruct (a.1.1 ?= b.1.1)%N, (a.1.2 ?= b.1.2)%N, (a.2 ?= b.2)%N; done.
Qed.

Lemma Sample_Compare_trans (a b c : Sample.ver) :
  Sample.Compare a b ≠ Gt → Sample.Compare b c ≠ Gt → Sample.Compare a c ≠ Gt.
Proof. rewrite !Sample_Compare_le. lia. Qed.

(* ===================================================================== *)
(** ** Runs of the program on explicit inputs *)

Module Run.

Import Scenario.

#[local] Existing Instance env.

Local Abbreviation tfVersion := (tfVersion Sample.ver).
Local Abbreviation World := (World Sample.ver).

(** *** Scenario A of the spec: [install] selects 0.13.0 *)

(** The whole of [install] in scenario A. *)
Lemma scenario_A_selects_0_13_0 :
  select constraint_A catalog_A = Some (candidate v0_13_0 true) ∧
  (install scenario_A).1 = Return tt ∧
  out (install scenario_A).2 = ["Successfully installed Terraform version 0.13.0" +:+ nl].
Proof. by vm_compute. Qed.

(** The selection on the catalog and the constraint of scenario A. *)
Lemma install_selects_newest_witness :
  let no_match := "None of the available Terraform versions matched the constraints" +:+ nl in
  StronglySorted (λ x y, Compare (Version y) (Version x) ≠ Gt) (sortDsc catalog_A) ∧
  select constraint_A catalog_A
  = List.find (λ c, Constraints_Check constraint_A (Version c))
      (sortDsc catalog_A) ∧
  match select constraint_A catalog_A with
  | Some t =>
      install_loop constraint_A (sortDsc catalog_A) scenario_A = install_version t scenario_A ∧
      In t catalog_A ∧
      Constraints_Check constraint_A (Version t) = true ∧
      (∀ t', In t' catalog_A →
             Constraints_Check constraint_A (Version t') = true →
             Compare (Version t') (Version t) ≠ Gt)
  | None =>
      install_loop constraint_A (sortDsc catalog_A) scenario_A
      = (Return tt, add_out no_match scenario_A)
  end ∧
  (select constraint_A catalog_A = None ↔
   ∀ t, In t catalog_A → Constraints_Check constraint_A (Version t) = false) ∧
  (In no_match (printed scenario_A (install_loop constraint_A (sortDsc catalog_A) scenario_A).2) ↔
   ∀ t, In t catalog_A → Constraints_Check constraint_A (Version t) = false).
Proof.
  exact (install_selects_newest (lib := env)
           Sample_Compare_flip Sample_Compare_trans
           (@insertionSort_Permutation) (@insertionSort_Sorted)
           constraint_A catalog_A scenario_A).
Defined.

(** *** Two candidates of one version *)

(** The two sorts on three candidates, two of them of one version. *)
Lemma sortAsc_reverse_sortDsc_witness :
  let l := [mirror_a; candidate v0_13_0 true; mirror_b] in
  Permutation l (sortAsc l) ∧
  Permutation l (sortDsc l) ∧
  StronglySorted (λ x y, Compare (Version x) (Version y) ≠ Gt) (sortAsc l) ∧
  StronglySorted (λ x y, Compare (Version y) (Version x) ≠ Gt) (sortDsc l) ∧
  Forall2 (λ x y, Compare (Version x) (Version y) = Eq) (sortAsc l) (rev (sortDsc l)) ∧
  ((∀ x y, In x l → In y l → Compare (Version x) (Version y) = Eq → x = y) →
   sortAsc l = rev (sortDsc l)).
Proof.
  exact (sortAsc_reverse_sortDsc (lib := env)
           Sample_Compare_flip Sample_Compare_trans
           (@insertionSort_Permutation) (@insertionSort_Sorted)
           [mirror_a; candidate v0_13_0 true; mirror_b]).
Defined.

(** On two candidates whose versions compare equal, both sorts leave the
    slice as it is: [sortAsc] is not the reverse of [sortDsc]. *)
Lemma sortAsc_not_reverse_sortDsc :
  Compare (Version mirror_a) (Version mirror_b) = Eq ∧
  sortAsc [mirror_a; mirror_b] = [mirror_a; mirror_b] ∧
  sortDsc [mirror_a; mirror_b] = [mirror_a; mirror_b] ∧
  sortAsc [mirror_a; mirror_b] ≠ rev (sortDsc [mirror_a; mirror_b]).
Proof. vm_compute. repeat split; discriminate. Qed.

(** *** A manifest with another digest for the archive *)

(** The install of 1.0.0 against a manifest with another digest. *)
Lemma checksum_mismatch_aborts_witness :
  ∃ w', install_version (candidate v1_0_0 true) (release wrong_sum) = (Return tt, w') ∧
        printed (release wrong_sum) w' = ["Checksum verification failed" +:+ nl] ∧
        fs w' = delete (archive_of v1_0_0) (with_dir (fs (release wrong_sum)) (dir_of v1_0_0)) ∧
        (bin_of v1_0_0 ≠ archive_of v1_0_0 →
         fs w' !! bin_of v1_0_0 = fs (release wrong_sum) !! bin_of v1_0_0).
Proof.
  apply (checksum_mismatch_aborts (lib := env) (candidate v1_0_0 true) (archive_url "1.0.0") eq_refl
           (release wrong_sum) (manifest_url "1.0.0") (archive "1.0.0")
           (records "1.0.0" wrong_sum) (wrong_sum, archive_name "1.0.0")).
  - reflexivity.
  - intros _. reflexivity.
  - split; [vm_compute; discriminate | intros _; reflexivity].
  - vm_compute. reflexivity.
  - vm_compute. reflexivity.
  - repeat constructor; vm_compute; discriminate.
  - vm_compute. reflexivity.
  - vm_compute. discriminate.
Defined.

(** The manifest contains a record whose
    file name is that of the archive and whose digest is not that of the
    download, after a record for the archive with the right digest.  The
    loop over the manifest leaves at the first record for the archive
    (line 399) and never reads the second: [install] does not print
    "Checksum verification failed", and it installs the binary. *)
Lemma later_mismatch_is_not_read :
  In (wrong_sum, archive_name "1.0.0") two_records ∧
  path_Base (Path (archive_url "1.0.0")) = archive_name "1.0.0" ∧
  wrong_sum ≠ sha256_Sum (archive "1.0.0") ∧
  net release_two_records !! URL_String (manifest_url "1.0.0")
  = Some (render_manifest two_records) ∧
  (install_version (candidate v1_0_0 true) release_two_records).1 = Return tt ∧
  out (install_version (candidate v1_0_0 true) release_two_records).2
  = ["Successfully installed Terraform version 1.0.0" +:+ nl] ∧
  fs (install_version (candidate v1_0_0 true) release_two_records).2 !! bin_of v1_0_0
  = Some (File (list_ascii_of_string "binary 1.0.0") 493%N).
Proof.
  split; [right; left; reflexivity|].
  vm_compute. repeat split; discriminate.
Qed.

(** *** A manifest whose first record is malformed *)

(** C4, on the code.  The first record of the manifest has no hex digest;
    the record of the archive, with the right digest, comes third.
    [Fscanf] stores nothing and reports an error, and [install] ends in
    [log.Fatal]: it prints neither "Bad format" nor anything else, reads
    no further record and installs nothing. *)
Lemma malformed_record_ends_install :
  n (Fscanf bad_manifest).1 = 0 ∧
  err (Fscanf bad_manifest).1 = Some (scanError "no hex data for %x string") ∧
  (install_version (candidate v1_0_0 true) bad_release).1 = Stop Fatal ∧
  out (install_version (candidate v1_0_0 true) bad_release).2 = [] ∧
  fs (install_version (candidate v1_0_0 true) bad_release).2 !! bin_of v1_0_0 = None.
Proof. by vm_compute. Qed.

(** *** A manifest without the record of the archive *)

(** The install of 1.0.0 against a manifest for another platform only. *)
Lemma no_checksum_warns_and_proceeds_witness :
  ∃ w2,
    install_version (candidate v1_0_0 true) release_other_platform
    = defer (remove_archive (archive_of v1_0_0))
        (unpack (candidate v1_0_0 true)
           (dir_of v1_0_0) (archive_of v1_0_0)) w2 ∧
    printed release_other_platform w2 = ["No checksum found" +:+ nl] ∧
    fs w2 = <[archive_of v1_0_0
              := File (archive "1.0.0")
                   (created_mode (with_dir (fs release_other_platform) (dir_of v1_0_0))
                      (archive_of v1_0_0))]>
              (with_dir (fs release_other_platform) (dir_of v1_0_0)) ∧
    ∀ files c,
      zip_OpenReader (archive "1.0.0") = Ok files → last_terraform files = Some c →
      creatable (with_dir (fs release_other_platform) (dir_of v1_0_0))
        (denied release_other_platform) (bin_of v1_0_0) →
      bin_of v1_0_0 ≠ archive_of v1_0_0 →
      ∃ w', install_version (candidate v1_0_0 true) release_other_platform = (Return tt, w') ∧
            printed release_other_platform w' =
              ["No checksum found" +:+ nl;
               "Successfully installed Terraform version "
               +:+ Version_String (Version (candidate v1_0_0 true)) +:+ nl] ∧
            fs w' !! bin_of v1_0_0 = Some (File c 493%N).
Proof.
  apply (no_checksum_warns_and_proceeds (lib := env) (candidate v1_0_0 true) (archive_url "1.0.0") eq_refl
           release_other_platform (archive "1.0.0")).
  - intros _. reflexivity.
  - split; [vm_compute; discriminate | intros _; reflexivity].
  - vm_compute. reflexivity.
  - right. exists (manifest_url "1.0.0"),
      [(repeat "001"%char 32, "terraform_1.0.0_darwin_amd64.zip")].
    split; [reflexivity|]. split; [vm_compute; reflexivity|].
    split; repeat constructor; vm_compute; discriminate.
Defined.

(** *** A version that is installed already *)

(** The install of 1.0.0 over an installed 1.0.0. *)
Lemma install_overwrites_installed_witness :
  ∃ w', install_version (candidate v1_0_0 true) reinstall = (Return tt, w') ∧
        In (URL_String (archive_url "1.0.0")) (drop (length (gets reinstall)) (gets w')) ∧
        fs w' !! bin_of v1_0_0 = Some (File (list_ascii_of_string "binary 1.0.0") 493%N) ∧
        last (printed reinstall w') =
          Some ("Successfully installed Terraform version "
                +:+ Version_String (Version (candidate v1_0_0 true)) +:+ nl).
Proof.
  apply (install_overwrites_installed (lib := env) (candidate v1_0_0 true) (archive_url "1.0.0") eq_refl
           reinstall (archive "1.0.0") (list_ascii_of_string "old binary")
           (list_ascii_of_string "binary 1.0.0") 493%N
           [("terraform", list_ascii_of_string "binary 1.0.0")]).
  - vm_compute. reflexivity.
  - vm_compute. reflexivity.
  - split; [vm_compute; discriminate | intros _; reflexivity].
  - vm_compute. discriminate.
  - vm_compute. reflexivity.
  - exists (records "1.0.0" (Sample.Sum (archive "1.0.0"))).
    split; [vm_compute; reflexivity|]. split.
    + repeat constructor; vm_compute; discriminate.
    + intros r. vm_compute. intros [= <-]. reflexivity.
  - vm_compute. reflexivity.
  - reflexivity.
Defined.

(** *** An install root with a stray entry *)

(** [exec] on an install root that holds [not-a-version]. *)
Lemma exec_unparsable_entry_fatal_witness :
  In "not-a-version" (entries stray_entry) ∧
  parse_entries (entries stray_entry) stray_entry
  = (Stop Fatal, stray_entry) ∧
  exec ["plan"] stray_entry = (Stop Fatal, stray_entry).
Proof.
  apply (exec_unparsable_entry_fatal (lib := env) ["plan"] stray_entry "not-a-version" Dir).
  - vm_compute. reflexivity.
  - vm_compute. reflexivity.
  - discriminate.
  - reflexivity.
  - reflexivity.
Defined.

(** *** Scenario B of the spec: the newest match has no binary *)



(** *** No required version *)


(** *** An unknown subcommand *)

(** [tvm version -json]. *)
Lemma main_unknown_subcommand_witness :
  main ["/usr/local/bin/tvm"; "version"; "-json"] scenario_A = (Return tt, scenario_A) ∧
  exit_status (main ["/usr/local/bin/tvm"; "version"; "-json"] scenario_A).1 = Some 0%Z.
Proof.
  apply (main_unknown_subcommand (lib := env) "/usr/local/bin/tvm" "version" ["-json"] scenario_A).
  - vm_compute. discriminate.
  - discriminate.
  - discriminate.
  - discriminate.
Defined.

(** *** [list] in scenario A *)

Lemma list_prints_ascending_witness :
  ∃ w', list_ scenario_A = (Return tt, w') ∧
        printed scenario_A w'
        = map (λ t, Version_String (Version t) +:+ nl) (sortAsc catalog_A) ∧
        Permutation catalog_A (sortAsc catalog_A) ∧
        StronglySorted (λ x y, Compare (Version x) (Version y) ≠ Gt) (sortAsc catalog_A) ∧
        fs w' = fs scenario_A ∧
        gets w' = gets scenario_A ++ baseURL :: release_pages scenario_A.
Proof.
  apply (list_prints_ascending (lib := env)
           Sample_Compare_flip Sample_Compare_trans
           (@insertionSort_Permutation) (@insertionSort_Sorted)
           scenario_A catalog_A).
  reflexivity.
Defined.

(** *** The install of 1.0.0 beside two installed versions *)

(** The binary of 0.13.0 is not touched by the install of 1.0.0. *)
Lemma install_version_frame_witness :
  fs (install_version (candidate v1_0_0 true) (two_installed 493 "")).2 !! bin_of v0_13_0
  = fs (two_installed 493 "") !! bin_of v0_13_0.
Proof.
  apply (install_version_frame (lib := env) (candidate v1_0_0 true) (two_installed 493 "")
           (bin_of v0_13_0)).
  - vm_compute. discriminate.
  - vm_compute. discriminate.
  - intros url [= <-]. vm_compute. discriminate.
Defined.

(** *** The archive in the cache *)

(** The archive is gone after the install that refused the checksum. *)
Lemma install_removes_archive_witness :
  fs (install_version (candidate v1_0_0 true) (release wrong_sum)).2 !! archive_of v1_0_0
  = None.
Proof.
  apply (install_removes_archive (lib := env) (candidate v1_0_0 true) (archive_url "1.0.0")
           (release wrong_sum)).
  - reflexivity.
  - vm_compute. reflexivity.
Defined.

(** The first install of 1.0.0. *)
Lemma first_install_adds_directory_and_binary_witness :
  ∃ w', install_version (candidate v1_0_0 true) verified_release = (Return tt, w') ∧
        fs w' = <[bin_of v1_0_0 := File (list_ascii_of_string "binary 1.0.0") 493%N]>
                  (<[dir_of v1_0_0 := Dir]> (fs verified_release)).
Proof.
  apply (first_install_adds_directory_and_binary (lib := env)
           (candidate v1_0_0 true) (archive_url "1.0.0") eq_refl
           verified_release (archive "1.0.0") (list_ascii_of_string "binary 1.0.0")
           [("terraform", list_ascii_of_string "binary 1.0.0")]).
  - vm_compute. reflexivity.
  - reflexivity.
  - vm_compute. reflexivity.
  - reflexivity.
  - vm_compute. reflexivity.
  - reflexivity.
  - vm_compute. discriminate.
  - vm_compute. discriminate.
  - vm_compute. reflexivity.
  - exists (records "1.0.0" (Sample.Sum (archive "1.0.0"))).
    split; [vm_compute; reflexivity|]. split.
    + repeat constructor; vm_compute; discriminate.
    + intros r. vm_compute. intros [= <-]. reflexivity.
  - vm_compute. reflexivity.
  - reflexivity.
Defined.

(** The install of an archive that holds a [README] only. *)
Lemma archive_without_binary_reported_installed_witness :
  ∃ w', install_version (candidate v1_0_0 false) readme_only = (Return tt, w') ∧
        last (printed readme_only w') =
          Some ("Successfully installed Terraform version "
                +:+ Version_String (Version (candidate v1_0_0 false)) +:+ nl) ∧
        fs w' !! bin_of v1_0_0 = fs readme_only !! bin_of v1_0_0.
Proof.
  apply (archive_without_binary_reported_installed (lib := env)
           (candidate v1_0_0 false) (archive_url "1.0.0") eq_refl
           readme_only (list_ascii_of_string ("PKREADME" +:+ nl +:+ "no binary here"))
           [("README", list_ascii_of_string "no binary here")]).
  - intros _. reflexivity.
  - split; [vm_compute; discriminate | intros _; reflexivity].
  - split; [vm_compute; discriminate | intros _; reflexivity].
  - vm_compute. discriminate.
  - vm_compute. reflexivity.
  - exact I.
  - vm_compute. reflexivity.
  - repeat constructor. vm_compute. discriminate.
Defined.

(** [exec] after the first install of 1.0.0, with no required version. *)
Lemma installed_binary_is_executed_witness :
  ∃ w', install_version (candidate v1_0_0 true) verified_release = (Return tt, w') ∧
        fs w' !! bin_of v1_0_0 = Some (File (list_ascii_of_string "binary 1.0.0") 493%N) ∧
        ∀ args t' rest,
          Version t' = Version (candidate v1_0_0 true) →
          exec_loop args [] (t' :: rest) w'
          = (Stop (Replaced (bin_of v1_0_0) ("terraform" :: args)), w').
Proof.
  apply (installed_binary_is_executed (lib := env)
           (candidate v1_0_0 true) (archive_url "1.0.0") eq_refl
           verified_release (archive "1.0.0") (list_ascii_of_string "binary 1.0.0")
           [("terraform", list_ascii_of_string "binary 1.0.0")] []).
  - intros _. reflexivity.
  - split; [vm_compute; discriminate | intros _; reflexivity].
  - split; [vm_compute; discriminate | intros _; reflexivity].
  - vm_compute. discriminate.
  - vm_compute. reflexivity.
  - exists (records "1.0.0" (Sample.Sum (archive "1.0.0"))).
    split; [vm_compute; reflexivity|]. split.
    + repeat constructor; vm_compute; discriminate.
    + intros r. vm_compute. intros [= <-]. reflexivity.
  - vm_compute. reflexivity.
  - reflexivity.
  - reflexivity.
Defined.

(** The install of 1.0.0 when the archive cannot be downloaded. *)
Lemma fatal_install_leaves_archive_witness :
  (install_version (candidate v1_0_0 true) unreachable).1 = Stop Fatal ∧
  is_Some (fs (install_version (candidate v1_0_0 true) unreachable).2 !! archive_of v1_0_0) ∧
  is_Some (fs (install_version (candidate v1_0_0 true) unreachable).2 !! dir_of v1_0_0).
Proof.
  apply (fatal_install_leaves_archive (lib := env)
           (candidate v1_0_0 true) (archive_url "1.0.0") eq_refl unreachable).
  - intros _. reflexivity.
  - split; [vm_compute; discriminate | intros _; reflexivity].
  - vm_compute. discriminate.
Defined.


(** [install] of 1.0.0 on an empty install root, then [exec]. *)
Lemma install_then_exec_witness :
  ∃ w', install_version (candidate v1_0_0 true) verified_release = (Return tt, w') ∧
        exec ["plan"] w' = (Stop (Replaced (bin_of v1_0_0) ("terraform" :: ["plan"])), w').
Proof.
  apply (install_then_exec (lib := env) (@insertionSort_Permutation)
           (candidate v1_0_0 true) (archive_url "1.0.0") verified_release
           (archive "1.0.0") (list_ascii_of_string "binary 1.0.0")
           [("terraform", list_ascii_of_string "binary 1.0.0")] ["plan"] [] v1_0_0).
  - reflexivity.
  - vm_compute. reflexivity.
  - vm_compute. reflexivity.
  - vm_compute. reflexivity.
  - reflexivity.
  - vm_compute. reflexivity.
  - reflexivity.
  - vm_compute. reflexivity.
  - reflexivity.
  - vm_compute. discriminate.
  - vm_compute. discriminate.
  - vm_compute. reflexivity.
  - exists (records "1.0.0" (Sample.Sum (archive "1.0.0"))).
    split; [vm_compute; reflexivity|]. split.
    + repeat constructor; vm_compute; discriminate.
    + intros r. vm_compute. intros [= <-]. reflexivity.
  - vm_compute. reflexivity.
  - reflexivity.
  - reflexivity.
  - vm_compute. discriminate.
  - vm_compute. reflexivity.
  - vm_compute. reflexivity.
  - vm_compute. reflexivity.
  - reflexivity.
Defined.

(** *** [exec] with 0.12.0 and 0.13.0 installed *)

Lemma exec_runs_newest_witness :
  exec ["plan"; "-out=tfplan"] (two_installed 493 "< 1.0.0")
  = (Stop (Replaced (binary_of (installed_version v0_13_0))
             ("terraform" :: ["plan"; "-out=tfplan"])),
     two_installed 493 "< 1.0.0") ∧
  In (installed_version v0_13_0) [installed_version v0_13_0; installed_version v0_12_0] ∧
  ∀ t', In t' [installed_version v0_13_0; installed_version v0_12_0] →
        Constraints_Check [(Sample.LT, v1_0_0)] (Version t') = true →
        Compare (Version t') (Version (installed_version v0_13_0)) ≠ Gt.
Proof.
  apply (exec_runs_newest (lib := env)
           Sample_Compare_flip Sample_Compare_trans
           (@insertionSort_Permutation) (@insertionSort_Sorted)
           ["plan"; "-out=tfplan"] (two_installed 493 "< 1.0.0")
           [installed_version v0_13_0; installed_version v0_12_0]
           [(Sample.LT, v1_0_0)] (installed_version v0_13_0)
           (list_ascii_of_string "binary 0.13.0") 493%N).
  - vm_compute. reflexivity.
  - vm_compute. reflexivity.
  - reflexivity.
  - vm_compute. reflexivity.
  - vm_compute. reflexivity.
  - vm_compute. discriminate.
Defined.

(** The binaries are there with mode 0644 (420). *)
Lemma exec_fatal_when_binary_not_executable_witness :
  exec ["plan"] (two_installed 420 "< 1.0.0") = (Stop Fatal, two_installed 420 "< 1.0.0").
Proof.
  apply (exec_fatal_when_binary_not_executable (lib := env)
           ["plan"] (two_installed 420 "< 1.0.0")
           [installed_version v0_13_0; installed_version v0_12_0]
           [(Sample.LT, v1_0_0)] (installed_version v0_13_0)
           (File (list_ascii_of_string "binary 0.13.0") 420%N)).
  - vm_compute. reflexivity.
  - vm_compute. reflexivity.
  - reflexivity.
  - vm_compute. reflexivity.
  - vm_compute. reflexivity.
  - intros c m [= <- <-]. reflexivity.
Defined.

(** The configuration requires 1.0.0 at least. *)
Lemma exec_without_match_witness :
  exec ["plan"] (two_installed 493 ">= 1.0.0") =
  (Return tt,
   add_out ("None of the installed Terraform versions matched the constraints" +:+ nl)
     (two_installed 493 ">= 1.0.0")) ∧
  exit_status (exec ["plan"] (two_installed 493 ">= 1.0.0")).1 = Some 0%Z.
Proof.
  apply (exec_without_match (lib := env) (@insertionSort_Permutation)
           ["plan"] (two_installed 493 ">= 1.0.0")
           [installed_version v0_13_0; installed_version v0_12_0]
           [(Sample.GE, v1_0_0)]).
  - vm_compute. reflexivity.
  - vm_compute. reflexivity.
  - reflexivity.
  - repeat constructor.
Defined.

(** *** A configuration without a [terraform] block *)

(** [getConstraints] panics, and with it [install], after the scrape, and
    [exec]: nothing is installed, executed or printed. *)
Lemma missing_block_panics :
  getConstraints no_terraform_block = (Stop Panic, no_terraform_block) ∧
  install no_terraform_block = (Stop Panic, scrape_gets no_terraform_block) ∧
  exec ["plan"] no_terraform_block = (Stop Panic, no_terraform_block) ∧
  exit_status (exec ["plan"] no_terraform_block).1 = Some 2%Z.
Proof. by vm_compute. Qed.

(** *** A required version that is no constraint *)

Lemma unusable_configuration_is_fatal_witness :
  install bad_config = (Stop Fatal, scrape_gets bad_config) ∧
  exec ["plan"] bad_config = (Stop Fatal, bad_config).
Proof.
  apply (unusable_configuration_is_fatal (lib := env) ["plan"] bad_config).
  right. exists "latest". split; [reflexivity|]. split; [discriminate | reflexivity].
Defined.

(** *** A manifest with text after the record of the archive *)

Lemma verify_stops_at_record_witness :
  verify (candidate v1_0_0 true) (archive_name "1.0.0") (Sample.Sum (archive "1.0.0"))
    release_trailing_text =
  if bool_decide (Sample.Sum (archive "1.0.0") = Sample.Sum (archive "1.0.0"))
  then (Return true, add_get (URL_String (manifest_url "1.0.0")) release_trailing_text)
  else (Return false,
        add_out ("Checksum verification failed" +:+ nl)
          (add_get (URL_String (manifest_url "1.0.0")) release_trailing_text)).
Proof.
  apply (verify_stops_at_record (lib := env) (candidate v1_0_0 true) (manifest_url "1.0.0")
           [(repeat "001"%char 32, "terraform_1.0.0_darwin_amd64.zip")]
           (Sample.Sum (archive "1.0.0")) (archive_name "1.0.0")
           (Sample.Sum (archive "1.0.0")) trailing_text release_trailing_text).
  - reflexivity.
  - vm_compute. reflexivity.
  - repeat constructor; vm_compute; discriminate.
  - repeat constructor. vm_compute. discriminate.
  - repeat constructor; vm_compute; discriminate.
Defined.

(** *** The first start of the program *)


(** *** The page of the release of 1.0.0 *)

#[local] Existing Instance site.

Lemma worker_takes_last_archive_link_witness :
  s_Version (worker (page_of "1.0.0")) = Some v1_0_0 ∧
  s_URL (worker (page_of "1.0.0")) = Some (archive_url "1.0.0").
Proof.
  apply (worker_takes_last_archive_link (lib := env) (site := site)
           (page_head "1.0.0") (page_tail "1.0.0") (archive_anchor "1.0.0" "linux" "amd64")
           v1_0_0 (archive_url "1.0.0")).
  - exists (URL_String (archive_url "1.0.0")), "1.0.0".
    repeat split; vm_compute; reflexivity.
  - intros a' v' u' [<-|[]] (h & sv & _ & _ & _ & _ & Hos & _).
    vm_compute in Hos. discriminate.
Defined.

Lemma page_without_archive_link_is_dropped_witness :
  candidates ([page_of "0.13.0"] ++ page_darwin_only :: [page_of "1.0.0"])
  = candidates ([page_of "0.13.0"] ++ [page_of "1.0.0"]).
Proof.
  apply (page_without_archive_link_is_dropped (lib := env) (site := site)
           [page_of "0.13.0"] [page_of "1.0.0"] page_darwin_only).
  intros a v u Hin (h & sv & _ & _ & _ & _ & Hos & _).
  destruct Hin as [<-|[<-|[]]]; vm_compute in Hos; discriminate.
Defined.

Lemma install_panics_only_in_getConstraints_witness :
  (install scraped_site).1 = Return tt ∨
  (install scraped_site).1 = Stop Fatal ∨
  ((install scraped_site).1 = Stop Panic ∧ config scraped_site = None ∧
   nil_block scraped_site = true ∧ (install scraped_site).2 = scrape_gets scraped_site).
Proof.
  apply (install_panics_only_in_getConstraints (lib := env) (@insertionSort_Permutation)
           (site := site) [page_of "0.13.0"; page_darwin_only; page_of "1.0.0"] scraped_site).
  reflexivity.
Defined.

End Run.
